(** * containerd: the execution service and the process supervisor

    A shallow embedding of two Go files of the repository:

    - [runtime/process.go]: the per-process supervision object
      ([newProcess], [loadProcess], [getPid], [ExitStatus], [Resize],
      [CloseStdin], ...), embedded in [Module runtime];
    - the execution service ([Service.Create], [Delete], [List], ...),
      embedded in [Module execution].

    The Go standard library pieces the code calls ([strconv.Atoi],
    [fmt.Fprintf] with the [%d] verb) are embedded in [Module strconv] and
    [Module fmt].  Go's [int] is taken to be 64 bits wide.

    Stateful code is written in state-passing style: a computation is a
    function of the state of the outside world (the operating system for
    the supervisor, the runtimes for the service) that returns its result
    and the new state, and that appends what it does to a trace of events.
    The answers of the outside world are not fixed: they are oracles of
    the state, so that every statement holds for every behaviour of the
    file system and of the runtimes.  The service is embedded one request
    at a time; interleavings of concurrent requests are not modelled. *)

From Stdlib Require Import ZArith Ascii String List Lia Bool.
From stdpp Require Import base option list gmap strings.

Local Open Scope string_scope.
Local Open Scope Z_scope.

(* ===================================================================== *)
(** ** strconv: parsing decimal integers *)
(* ===================================================================== *)

Module strconv.

(** The two sentinel errors a [*NumError] wraps. *)
Inductive NumErr : Type :=
| ErrSyntax
| ErrRange.

#[global] Instance NumErr_eq_dec : EqDecision NumErr.
Proof. solve_decision. Defined.

Definition maxUint64 : Z := 2 ^ 64 - 1.

(** [cutoff] is the smallest [n] such that [n * 10] overflows 64 bits
    ([maxUint64/10 + 1] in the Go source). *)
Definition cutoff : Z := maxUint64 / 10 + 1.

(** The value of the byte [c] as a base-10 digit.  In [ParseUint] a letter
    yields a digit of 10 or more, which base 10 rejects like any other
    byte that is no digit. *)
Definition digit (c : ascii) : option Z :=
  let b := Z.of_nat (nat_of_ascii c) in
  if (48 <=? b) && (b <=? 57) then Some (b - 48) else None.

(** The loop of [ParseUint(s, 10, 64)]: [n] is the value read so far.
    A range error is reported as soon as it is met, before the remaining
    bytes are looked at. *)
Fixpoint ParseUint_loop (s : string) (n : Z) : Z * option NumErr :=
  match s with
  | EmptyString => (n, None)
  | String c s' =>
      match digit c with
      | None => (0, Some ErrSyntax)
      | Some d =>
          if cutoff <=? n then (maxUint64, Some ErrRange)
          else
            let n10 := n * 10 in
            let n1 := (n10 + d) mod 2 ^ 64 in
            if (n1 <? n10) || (maxUint64 <? n1) then (maxUint64, Some ErrRange)
            else ParseUint_loop s' n1
      end
  end.

Definition ParseUint (s : string) : Z * option NumErr :=
  match s with
  | EmptyString => (0, Some ErrSyntax)
  | _ => ParseUint_loop s 0
  end.

(** [ParseInt(s, 10, 0)]: an optional sign, then [ParseUint]; the
    magnitude is checked against [1 << 63]. *)
Definition ParseInt (s : string) : Z * option NumErr :=
  match s with
  | EmptyString => (0, Some ErrSyntax)
  | String c s' =>
      let neg := Ascii.eqb c "-" in
      let body := if Ascii.eqb c "+" || neg then s' else s in
      let '(un, err) := ParseUint body in
      match err with
      | Some ErrSyntax => (0, Some ErrSyntax)
      | _ =>
          let cut := 2 ^ 63 in
          if negb neg && (cut <=? un) then (cut - 1, Some ErrRange)
          else if neg && (cut <? un) then (- cut, Some ErrRange)
          else (if neg then - un else un, None)
      end
  end.

(** [Atoi(s)] is [ParseInt(s, 10, 0)] converted to [int]. *)
Definition Atoi (s : string) : Z * option NumErr := ParseInt s.

(** *** What a decimal numeral denotes

    Independent of the parser: a numeral is an optional sign followed by
    one or more digits, and denotes the usual positional value. *)

Fixpoint digits_of (s : string) : option (list Z) :=
  match s with
  | EmptyString => Some nil
  | String c s' =>
      match digit c, digits_of s' with
      | Some d, Some ds => Some (d :: ds)
      | _, _ => None
      end
  end.

Definition positional (ds : list Z) : Z :=
  fold_left (fun acc d => 10 * acc + d) ds 0.

Definition unsigned_value (s : string) : option Z :=
  match digits_of s with
  | Some (d :: ds) => Some (positional (d :: ds))
  | _ => None
  end.

Definition decimal_value (s : string) : option Z :=
  match s with
  | EmptyString => None
  | String c s' =>
      if Ascii.eqb c "-" then Z.opp <$> unsigned_value s'
      else if Ascii.eqb c "+" then unsigned_value s'
      else unsigned_value s
  end.

Definition in_int_range (z : Z) : Prop := - 2 ^ 63 <= z < 2 ^ 63.

(** *** The parser on a few inputs *)

Example Atoi_pid : Atoi "1234" = (1234, None).
Proof. reflexivity. Qed.

Example Atoi_signed : Atoi "-17" = (-17, None) /\ Atoi "+17" = (17, None).
Proof. split; reflexivity. Qed.

Example Atoi_trailing_newline :
  Atoi (String "1" (String "2" (String (ascii_of_nat 10) EmptyString)))
  = (0, Some ErrSyntax).
Proof. reflexivity. Qed.

Example Atoi_empty_and_sign_only :
  Atoi "" = (0, Some ErrSyntax) /\ Atoi "-" = (0, Some ErrSyntax).
Proof. split; reflexivity. Qed.

Example Atoi_limits :
  Atoi "9223372036854775807" = (9223372036854775807, None) /\
  Atoi "9223372036854775808" = (9223372036854775807, Some ErrRange) /\
  Atoi "-9223372036854775808" = (-9223372036854775808, None) /\
  Atoi "-9223372036854775809" = (-9223372036854775808, Some ErrRange).
Proof. repeat split; reflexivity. Qed.

Example Atoi_range_before_syntax :
  Atoi "99999999999999999999999x" = (9223372036854775807, Some ErrRange).
Proof. reflexivity. Qed.

(** *** The parser against the denotation *)

Lemma digit_bounds c d : digit c = Some d -> 0 <= d <= 9.
Proof.
  unfold digit. intros H.
  destruct ((48 <=? _) && (_ <=? 57)) eqn:E; inversion H; subst.
  apply andb_true_iff in E as [E1 E2]. lia.
Qed.

Definition shift_in (acc d : Z) : Z := 10 * acc + d.

Lemma fold_shift_in_ge ds : forall n,
  0 <= n -> Forall (fun d => 0 <= d <= 9) ds -> n <= fold_left shift_in ds n.
Proof.
  induction ds as [|d ds IH]; intros n Hn Hds; simpl; [lia|].
  inversion Hds; subst.
  assert (n <= shift_in n d) as Hle by (unfold shift_in; lia).
  assert (0 <= shift_in n d) as Hpos by lia.
  pose proof (IH (shift_in n d) Hpos ltac:(assumption)). lia.
Qed.

Lemma digits_of_bounds s : forall ds,
  digits_of s = Some ds -> Forall (fun d => 0 <= d <= 9) ds.
Proof.
  induction s as [|c s IH]; simpl; intros ds H.
  - inversion H. constructor.
  - destruct (digit c) eqn:Ec; [|discriminate].
    destruct (digits_of s) eqn:Es; [|discriminate].
    inversion H; subst. constructor; eauto using digit_bounds.
Qed.

(** The loop reads exactly the digit strings whose value fits 64 bits. *)
Lemma ParseUint_loop_digits s : forall n ds,
  0 <= n < 2 ^ 64 ->
  digits_of s = Some ds ->
  ParseUint_loop s n =
    if fold_left shift_in ds n <? 2 ^ 64
    then (fold_left shift_in ds n, None)
    else (maxUint64, Some ErrRange).
Proof.
  induction s as [|c s IH]; simpl; intros n ds Hn H.
  - inversion H; subst; simpl.
    destruct (n <? 2 ^ 64) eqn:E; [reflexivity | lia].
  - destruct (digit c) as [d|] eqn:Ec; [|discriminate].
    destruct (digits_of s) as [ds'|] eqn:Es; [|discriminate].
    inversion H; subst; clear H. simpl.
    pose proof (digit_bounds _ _ Ec) as Hd.
    pose proof (digits_of_bounds _ _ Es) as Hds.
    assert (Hsh : shift_in n d = n * 10 + d) by (unfold shift_in; lia).
    assert (Hge : n * 10 + d <= fold_left shift_in ds' (shift_in n d)).
    { rewrite <- Hsh. apply fold_shift_in_ge; [lia | assumption]. }
    unfold cutoff, maxUint64 in *.
    change (2 ^ 64) with 18446744073709551616 in *.
    change ((18446744073709551616 - 1) / 10 + 1) with 1844674407370955162.
    destruct (1844674407370955162 <=? n) eqn:Ecut.
    + destruct (_ <? 18446744073709551616) eqn:E; [lia | reflexivity].
    + assert (Hn10 : 0 <= n * 10 + d < 2 * 18446744073709551616) by lia.
      destruct (18446744073709551616 <=? n * 10 + d) eqn:Eov.
      * replace ((n * 10 + d) mod 18446744073709551616)
          with (n * 10 + d - 18446744073709551616)
          by (apply Z.mod_unique with (q := 1); lia).
        destruct (_ <? n * 10) eqn:E1; [|lia]. simpl.
        destruct (_ <? 18446744073709551616) eqn:E; [lia | reflexivity].
      * rewrite Z.mod_small by lia.
        destruct (_ <? n * 10) eqn:E1; [lia|].
        destruct (18446744073709551616 - 1 <? _) eqn:E2; [lia|]. simpl.
        rewrite (IH (n * 10 + d) ds') by (auto; lia).
        rewrite Hsh. reflexivity.
Qed.

(** On anything else the loop reports an error. *)
Lemma ParseUint_loop_not_digits s : forall n,
  digits_of s = None -> snd (ParseUint_loop s n) <> None.
Proof.
  induction s as [|c s IH]; simpl; intros n H; [discriminate|].
  destruct (digit c) as [d|] eqn:Ec; [|simpl; discriminate].
  destruct (digits_of s) eqn:Es; [discriminate|].
  destruct (cutoff <=? n); [simpl; discriminate|].
  destruct (_ || _); [simpl; discriminate|].
  apply IH; reflexivity.
Qed.

(** A range error always comes with the clamped value. *)
Lemma ParseUint_loop_range s : forall n v,
  ParseUint_loop s n = (v, Some ErrRange) -> v = maxUint64.
Proof.
  induction s as [|c s IH]; simpl; intros n v H; [discriminate|].
  destruct (digit c); [|discriminate].
  destruct (cutoff <=? n); [congruence|].
  destruct (_ || _); [congruence|]. eauto.
Qed.

Lemma unsigned_value_nonneg s v : unsigned_value s = Some v -> 0 <= v.
Proof.
  unfold unsigned_value. destruct (digits_of s) as [ds|] eqn:E; [|discriminate].
  destruct ds as [|d ds]; [discriminate|]. intros H; inversion H; subst.
  unfold positional. fold shift_in.
  apply (fold_shift_in_ge (d :: ds) 0); [lia | eauto using digits_of_bounds].
Qed.

(** What [ParseUint] answers, by the denotation of its input. *)
Lemma ParseUint_cases s :
  match unsigned_value s with
  | Some v =>
      ParseUint s = if v <? 2 ^ 64 then (v, None) else (maxUint64, Some ErrRange)
  | None =>
      exists v k, ParseUint s = (v, Some k) /\ (k = ErrRange -> v = maxUint64)
  end.
Proof.
  unfold unsigned_value, ParseUint.
  destruct s as [|c s].
  { exists 0, ErrSyntax. split; [reflexivity | discriminate]. }
  destruct (digits_of (String c s)) as [ds|] eqn:E.
  - assert (ds <> nil) as Hne.
    { simpl in E. destruct (digit c), (digits_of s); inversion E. discriminate. }
    destruct ds as [|d ds]; [contradiction|].
    rewrite (ParseUint_loop_digits _ 0 (d :: ds)) by (auto; lia).
    reflexivity.
  - pose proof (ParseUint_loop_not_digits _ 0 E) as Hn.
    destruct (ParseUint_loop (String c s) 0) as [v [k|]] eqn:EP; [|contradiction].
    exists v, k. split; [reflexivity|]. intros ->.
    eapply ParseUint_loop_range; eauto.
Qed.

(** [Atoi] succeeds exactly on the decimal numerals whose value is an
    [int], and then returns that value. *)
Theorem Atoi_ok s z :
  Atoi s = (z, None) <-> decimal_value s = Some z /\ in_int_range z.
Proof.
  unfold Atoi, ParseInt, decimal_value, in_int_range.
  destruct s as [|c s]; [split; [discriminate | intros [? _]; discriminate]|].
  change (2 ^ 63) with 9223372036854775808.
  set (neg := Ascii.eqb c "-").
  set (body := if Ascii.eqb c "+" || neg then s else String c s).
  assert (Hdv : (if neg then Z.opp <$> unsigned_value s
                 else if Ascii.eqb c "+" then unsigned_value s
                      else unsigned_value (String c s))
                = (if neg then Z.opp <$> unsigned_value body else unsigned_value body)).
  { subst body. destruct neg; [rewrite orb_true_r; reflexivity|].
    rewrite orb_false_r. destruct (Ascii.eqb c "+"); reflexivity. }
  rewrite Hdv. clearbody body neg. clear Hdv.
  pose proof (ParseUint_cases body) as HP.
  destruct (unsigned_value body) as [v|] eqn:Ev.
  - pose proof (unsigned_value_nonneg _ _ Ev) as Hv.
    rewrite HP. unfold maxUint64.
    change (2 ^ 64) with 18446744073709551616.
    destruct (v <? 18446744073709551616) eqn:Elt.
    + destruct neg; simpl.
      * destruct (9223372036854775808 <? v) eqn:E1; split.
        -- discriminate.
        -- intros [H ?]. inversion H; subst. lia.
        -- intros H. inversion H; subst. split; [reflexivity | lia].
        -- intros [H ?]. inversion H; subst. reflexivity.
      * destruct (9223372036854775808 <=? v) eqn:E1; split.
        -- discriminate.
        -- intros [H ?]. inversion H; subst. lia.
        -- intros H. inversion H; subst. split; [reflexivity | lia].
        -- intros [H ?]. inversion H; subst. reflexivity.
    + destruct neg; simpl; split; try discriminate.
      * intros [H ?]. inversion H; subst. lia.
      * intros [H ?]. inversion H; subst. lia.
  - destruct HP as (v & k & -> & Hk). split.
    + destruct k; [discriminate|]. rewrite (Hk eq_refl). unfold maxUint64.
      destruct neg; simpl; discriminate.
    + destruct neg; simpl; intros [? _]; discriminate.
Qed.

(** Anything else is an error. *)
Corollary Atoi_error s :
  (forall z, decimal_value s = Some z -> ~ in_int_range z) ->
  snd (Atoi s) <> None.
Proof.
  intros H Hn. destruct (Atoi s) as [z e] eqn:E. simpl in Hn; subst.
  apply Atoi_ok in E as [E1 E2]. exact (H z E1 E2).
Qed.

End strconv.

(* ===================================================================== *)
(** ** fmt: the [%d] verb *)
(* ===================================================================== *)

Module fmt.

Definition digit_char (d : Z) : ascii := ascii_of_nat (Z.to_nat (48 + d)).

(** The digit loop of [fmtInteger]: the digits of [u] are produced from
    the least significant one, in front of what is already there. *)
Fixpoint fmt_digits (fuel : nat) (u : Z) (acc : string) : string :=
  match fuel with
  | O => acc
  | S fuel' =>
      if u <? 10 then String (digit_char u) acc
      else fmt_digits fuel' (u / 10) (String (digit_char (u mod 10)) acc)
  end.

(** [%d] applied to an [int]: a minus sign for a negative value, then the
    digits of the magnitude.  The fuel is one more than the number of
    binary digits, which bounds the number of decimal digits. *)
Definition fmt_d (z : Z) : string :=
  let u := Z.abs z in
  let ds := fmt_digits (S (Z.to_nat (Z.log2 u))) u EmptyString in
  if z <? 0 then String "-" ds else ds.

(** [Sprintf] restricted to what the repository uses: literal bytes and
    the [%d] verb over [int] operands.  A verb with no operand left prints
    [%!d(MISSING)]. *)
Fixpoint Sprintf (format : string) (args : list Z) : string :=
  match format with
  | EmptyString => EmptyString
  | String "%" (String "d" rest) =>
      match args with
      | a :: args' => fmt_d a ++ Sprintf rest args'
      | nil => "%!d(MISSING)" ++ Sprintf rest nil
      end
  | String c rest => String c (Sprintf rest args)
  end.

(** *** The printer on a few inputs *)

Example fmt_d_samples :
  fmt_d 0 = "0" /\ fmt_d 80 = "80" /\ fmt_d (-105) = "-105" /\
  fmt_d 9223372036854775807 = "9223372036854775807".
Proof. repeat split; reflexivity. Qed.

Example Sprintf_missing : Sprintf "%d %d" [7] = "7 %!d(MISSING)".
Proof. reflexivity. Qed.

(** *** [%d] prints the decimal numeral of its operand *)

Lemma digit_of_digit_char d : 0 <= d <= 9 -> strconv.digit (digit_char d) = Some d.
Proof.
  intros H.
  assert (d = 0 \/ d = 1 \/ d = 2 \/ d = 3 \/ d = 4 \/
          d = 5 \/ d = 6 \/ d = 7 \/ d = 8 \/ d = 9) as Hd by lia.
  repeat (destruct Hd as [-> | Hd]; [reflexivity|]). subst; reflexivity.
Qed.

Lemma digit_not_sign c d :
  strconv.digit c = Some d -> Ascii.eqb c "-" = false /\ Ascii.eqb c "+" = false.
Proof.
  intros H. split.
  - destruct (Ascii.eqb c "-") eqn:E; [|reflexivity].
    apply Ascii.eqb_eq in E; subst. discriminate.
  - destruct (Ascii.eqb c "+") eqn:E; [|reflexivity].
    apply Ascii.eqb_eq in E; subst. discriminate.
Qed.

Lemma fold_shift_in_snoc ds x :
  fold_left strconv.shift_in (ds ++ [x])%list 0
  = 10 * fold_left strconv.shift_in ds 0 + x.
Proof. rewrite fold_left_app. reflexivity. Qed.

Lemma fmt_digits_S fuel u acc :
  fmt_digits (S fuel) u acc =
    if u <? 10 then String (digit_char u) acc
    else fmt_digits fuel (u / 10) (String (digit_char (u mod 10)) acc).
Proof. reflexivity. Qed.

Lemma fmt_digits_spec fuel : forall u acc dacc,
  0 <= u < 2 ^ Z.of_nat (S fuel) ->
  strconv.digits_of acc = Some dacc ->
  exists ds, ds <> nil /\
    strconv.digits_of (fmt_digits (S fuel) u acc) = Some (ds ++ dacc)%list /\
    fold_left strconv.shift_in ds 0 = u.
Proof.
  induction fuel as [|fuel IH]; intros u acc dacc Hu Hacc.
  - change (2 ^ Z.of_nat 1) with 2 in Hu.
    exists [u]. rewrite fmt_digits_S. destruct (u <? 10) eqn:E; [|lia].
    cbn [strconv.digits_of]. rewrite digit_of_digit_char by lia. rewrite Hacc.
    split; [discriminate|]. split; [reflexivity|].
    simpl. unfold strconv.shift_in; lia.
  - rewrite fmt_digits_S. destruct (u <? 10) eqn:E.
    + exists [u]. cbn [strconv.digits_of].
      rewrite digit_of_digit_char by lia. rewrite Hacc.
      split; [discriminate|]. split; [reflexivity|].
      simpl. unfold strconv.shift_in; lia.
    + assert (0 <= u mod 10 < 10) as Hm by (apply Z.mod_pos_bound; lia).
      assert (0 <= u / 10 < 2 ^ Z.of_nat (S fuel)) as Hq.
      { split; [apply Z.div_pos; lia|].
        apply Z.div_lt_upper_bound; [lia|].
        replace (Z.of_nat (S (S fuel))) with (Z.succ (Z.of_nat (S fuel))) in Hu by lia.
        rewrite Z.pow_succ_r in Hu by lia.
        assert (0 < 2 ^ Z.of_nat (S fuel)) by (apply Z.pow_pos_nonneg; lia).
        lia. }
      destruct (IH (u / 10) (String (digit_char (u mod 10)) acc)
                   ((u mod 10) :: dacc) Hq) as (ds & Hne & Hds & Hval).
      { simpl. rewrite digit_of_digit_char by lia. rewrite Hacc. reflexivity. }
      exists (ds ++ [u mod 10])%list. split; [|split].
      * destruct ds; discriminate.
      * rewrite Hds. rewrite <- app_assoc. reflexivity.
      * rewrite fold_shift_in_snoc, Hval.
        pose proof (Z.div_mod u 10). lia.
Qed.

(** The numeral [%d] prints denotes the operand. *)
Theorem fmt_d_decimal z : strconv.decimal_value (fmt_d z) = Some z.
Proof.
  unfold fmt_d.
  set (u := Z.abs z).
  assert (0 <= u < 2 ^ Z.of_nat (S (Z.to_nat (Z.log2 u)))) as Hu.
  { subst u. split; [lia|].
    pose proof (Z.log2_nonneg (Z.abs z)) as Hl.
    replace (Z.of_nat (S (Z.to_nat (Z.log2 (Z.abs z)))))
      with (Z.succ (Z.log2 (Z.abs z))) by lia.
    destruct (Z.eq_dec (Z.abs z) 0) as [E|E].
    - rewrite E. reflexivity.
    - apply Z.log2_spec. lia. }
  destruct (fmt_digits_spec _ u EmptyString nil Hu eq_refl) as (ds & Hne & Hds & Hval).
  rewrite app_nil_r in Hds.
  assert (strconv.unsigned_value
            (fmt_digits (S (Z.to_nat (Z.log2 u))) u EmptyString) = Some u) as Hun.
  { unfold strconv.unsigned_value. rewrite Hds.
    destruct ds as [|d ds]; [contradiction|].
    unfold strconv.positional. fold strconv.shift_in. rewrite Hval. reflexivity. }
  destruct (z <? 0) eqn:Ez.
  - change (strconv.decimal_value (String "-" ?x))
      with (Z.opp <$> strconv.unsigned_value x).
    rewrite Hun. simpl. f_equal. lia.
  - destruct (fmt_digits _ u EmptyString) as [|c s] eqn:Ef; [discriminate|].
    simpl in Hds. destruct (strconv.digit c) as [d|] eqn:Ec; [|discriminate].
    destruct (digit_not_sign _ _ Ec) as [E1 E2].
    unfold strconv.decimal_value. rewrite E1, E2, Hun. f_equal. lia.
Qed.

(** Parsing what [%d] printed gives the operand back. *)
Corollary Atoi_fmt_d z :
  strconv.in_int_range z -> strconv.Atoi (fmt_d z) = (z, None).
Proof. intros H. apply strconv.Atoi_ok. split; [apply fmt_d_decimal | exact H]. Qed.

End fmt.

(* ===================================================================== *)
(** ** runtime: the process supervisor (runtime/process.go) *)
(* ===================================================================== *)

Module runtime.

(** Go [error] values met by the supervisor.  [ErrProcessNotExited] is the
    package's own sentinel, compared by identity at line 111; [Errorf] is a
    value made by [fmt.Errorf], which is never identical to a sentinel;
    [PathError] is what the [os] package returns, with the errno it wraps;
    [NumError] is what [strconv] returns; [ErrInvalid] is what a method of
    a nil [*os.File] returns. *)
Inductive error : Type :=
| ErrProcessNotExited
| Errorf (msg : string)
| PathError (op path : string) (errno : Z)
| NumError (num : string) (kind : strconv.NumErr)
| ErrInvalid.

#[global] Instance error_eq_dec : EqDecision error.
Proof. solve_decision. Defined.

Definition ENOENT : Z := 2.

(** [os.IsNotExist]: the error wraps [ENOENT]. *)
Definition IsNotExist (e : error) : bool :=
  match e with
  | PathError _ _ errno => errno =? ENOENT
  | _ => false
  end.

(** [filepath.Join] of a directory and a file name.  Paths are only used
    as keys of the file system, so its cleaning of the result is left
    out. *)
Definition Join (dir name : string) : string := dir ++ "/" ++ name.

Definition nl : string := String (ascii_of_nat 10) EmptyString.

(** Equations between sets of handles. *)
Ltac handles :=
  set_unfold; intros;
  repeat match goal with
         | |- _ <-> _ => split
         | |- _ /\ _ => split
         | H : _ /\ _ |- _ => destruct H
         | H : _ \/ _ |- _ => destruct H
         | |- _ -> _ => intro
         | |- ~ _ => intro
         end;
  subst; try contradiction; try lia; auto.

Section Supervisor.

(** Types and helpers of the package that are declared in other files:
    the OCI process specification, the platform specification, the
    container a process belongs to, the names of the artifacts, and
    [getRootIDs], which reads the root owner out of the platform
    specification. *)
Context {specs_Process platformSpec container : Type}.
Variables ExitFile ControlFile ExitStatusFile : string.
Variable getRootIDs : option platformSpec -> Z * Z * option error.

Record Stdio : Type := mkStdio {
  Stdin : string;
  Stdout : string;
  Stderr : string
}.

(** The record serialised to [process.json]. *)
Record ProcessState : Type := mkProcessState {
  ps_Process : specs_Process;
  ps_Exec : bool;
  ps_Checkpoint : string;
  ps_RootUID : Z;
  ps_RootGID : Z;
  ps_Stdin : string;
  ps_Stdout : string;
  ps_Stderr : string
}.

Record processConfig : Type := mkProcessConfig {
  cfg_id : string;
  cfg_root : string;
  cfg_processSpec : specs_Process;
  cfg_spec : option platformSpec;
  cfg_c : container;
  cfg_stdio : Stdio;
  cfg_exec : bool;
  cfg_checkpoint : string
}.

(** An open file is a handle; a [*os.File] field is [None] when nil. *)
Definition File : Type := nat.

Record process : Type := mkProcess {
  root : string;
  id : string;
  pid : Z;
  exitPipe : option File;
  controlPipe : option File;
  p_container : container;
  spec : specs_Process;
  stdio : Stdio
}.

Definition set_pid (p : process) (i : Z) : process :=
  mkProcess (root p) (id p) i (exitPipe p) (controlPipe p)
            (p_container p) (spec p) (stdio p).

Definition set_exitPipe (p : process) (f : option File) : process :=
  mkProcess (root p) (id p) (pid p) f (controlPipe p)
            (p_container p) (spec p) (stdio p).

Definition set_controlPipe (p : process) (f : option File) : process :=
  mkProcess (root p) (id p) (pid p) (exitPipe p) f
            (p_container p) (spec p) (stdio p).

(** *** The operating system

    What the supervisor does to the outside is recorded as a trace of
    events; what the outside answers is given by oracles, indexed by the
    number of calls answered so far ([tick]), so that a file may appear,
    change or vanish between two calls. *)
Inductive Event : Type :=
| EvCreate (path : string)
| EvEncode (f : File) (st : ProcessState)
| EvClose (f : File)
| EvOpenPipe (path : string)
| EvReadFile (path : string)
| EvSleep (ms : Z)
| EvWrite (f : File) (data : string).

Record World : Type := mkWorld {
  (* oracles *)
  read_file : nat -> string -> string + string * Z;
  create_file : nat -> string -> option Z;
  encode_json : nat -> option error;
  open_pipe : nat -> string -> option error;
  write_file : nat -> File -> string -> option error;
  (* state *)
  tick : nat;
  open_files : gset File;
  next_file : File;
  trace : list Event
}.

Definition step (w : World) (ev : Event) (opened : gset File) (next : File) : World :=
  mkWorld (read_file w) (create_file w) (encode_json w) (open_pipe w) (write_file w)
          (S (tick w)) opened next (trace w ++ [ev])%list.

(** Stateful code is a function of the world. *)
Definition M (A : Type) : Type := World -> A * World.

#[local] Instance M_ret : MRet M := fun A a w => (a, w).

#[local] Instance M_bind : MBind M :=
  fun A B k m w => let '(a, w') := m w in k a w'.

Definition ret {A} (a : A) : M A := mret a.

(** [ioutil.ReadFile]: the contents, or a [*PathError]. *)
Definition ReadFile (path : string) : M (string + error) :=
  fun w =>
    let r := match read_file w (tick w) path with
             | inl data => inl data
             | inr (op, errno) => inr (PathError op path errno)
             end in
    (r, step w (EvReadFile path) (open_files w) (next_file w)).

(** [time.Sleep(ms * time.Millisecond)]. *)
Definition Sleep (ms : Z) : M unit :=
  fun w => (tt, mkWorld (read_file w) (create_file w) (encode_json w) (open_pipe w)
                        (write_file w) (tick w) (open_files w) (next_file w)
                        (trace w ++ [EvSleep ms])%list).

(** [os.Create]: a fresh open handle, or a [*PathError]. *)
Definition os_Create (path : string) : M (File + error) :=
  fun w =>
    match create_file w (tick w) path with
    | None =>
        let f := next_file w in
        (inl f, step w (EvCreate path) ({[ f ]} ∪ open_files w) (S f))
    | Some errno =>
        (inr (PathError "open" path errno),
         step w (EvCreate path) (open_files w) (next_file w))
    end.

(** [f.Close()]: the handle is released whatever [close] answers. *)
Definition File_Close (f : File) : M unit :=
  fun w => (tt, step w (EvClose f) (open_files w ∖ {[ f ]}) (next_file w)).

(** [json.NewEncoder(f).Encode(st)]. *)
Definition Encode (f : File) (st : ProcessState) : M (option error) :=
  fun w => (encode_json w (tick w),
            step w (EvEncode f st) (open_files w) (next_file w)).

(** Modelled from the spec: [getExitPipe] and [getControlPipe] are
    declared in another file of the package.  Each opens the channel
    whose artifact is at [path]: it returns a fresh open handle, or fails
    with an error and leaves nothing open. *)
Definition open_channel (path : string) : M (File + error) :=
  fun w =>
    match open_pipe w (tick w) path with
    | None =>
        let f := next_file w in
        (inl f, step w (EvOpenPipe path) ({[ f ]} ∪ open_files w) (S f))
    | Some e => (inr e, step w (EvOpenPipe path) (open_files w) (next_file w))
    end.

Definition getExitPipe : string -> M (File + error) := open_channel.
Definition getControlPipe : string -> M (File + error) := open_channel.

(** [fmt.Fprintf(f, format, args...)]: the formatted bytes are handed to
    one [Write] of [f]; a nil [*os.File] answers [ErrInvalid] and nothing
    reaches the system. *)
Definition Fprintf (f : option File) (format : string) (args : list Z) : M (option error) :=
  fun w =>
    match f with
    | None => (Some ErrInvalid, w)
    | Some fd =>
        let data := fmt.Sprintf format args in
        (write_file w (tick w) fd data,
         step w (EvWrite fd data) (open_files w) (next_file w))
    end.

(** *** process.go *)

(** Lines 53-93.  [defer f.Close()] at line 69 runs when the function
    returns, on every path after it. *)
Definition newProcess (config : processConfig) : M (process + error) :=
  let p := mkProcess (cfg_root config) (cfg_id config) 0 None None
                     (cfg_c config) (cfg_processSpec config) (cfg_stdio config) in
  let '(uid, gid, err) := getRootIDs (cfg_spec config) in
  match err with
  | Some e => ret (inr e)
  | None =>
      r ← os_Create (Join (cfg_root config) "process.json");
      match r with
      | inr e => ret (inr e)
      | inl f =>
          res ← (err ← Encode f (mkProcessState (cfg_processSpec config)
                                     (cfg_exec config) (cfg_checkpoint config)
                                     uid gid
                                     (Stdin (cfg_stdio config))
                                     (Stdout (cfg_stdio config))
                                     (Stderr (cfg_stdio config)));
                  match err with
                  | Some e => ret (inr e)
                  | None =>
                      r ← getExitPipe (Join (cfg_root config) ExitFile);
                      match r with
                      | inr e => ret (inr e)
                      | inl exit =>
                          r ← getControlPipe (Join (cfg_root config) ControlFile);
                          match r with
                          | inr e => ret (inr e)
                          | inl control =>
                              ret (inl (set_controlPipe (set_exitPipe p (Some exit))
                                                        (Some control)))
                          end
                      end
                  end);
          _ ← File_Close f;
          ret res
      end
  end.

(** Lines 162-174. *)
Definition ExitStatus (p : process) : M (Z * option error) :=
  r ← ReadFile (Join (root p) ExitStatusFile);
  match r with
  | inr err =>
      if IsNotExist err then ret (-1, Some ErrProcessNotExited)
      else ret (-1, Some err)
  | inl data =>
      if (String.length data =? 0)%nat then ret (-1, Some ErrProcessNotExited)
      else
        let '(n, err) := strconv.Atoi data in
        ret (n, NumError data <$> err)
  end.

(** Lines 189-207.  [n] is the number of iterations left, [20 - i]; the
    process is returned with its [pid] field as the call leaves it. *)
Fixpoint getPid_loop (n : nat) (p : process) : M (Z * option error * process) :=
  match n with
  | O => ret (-1, Some (Errorf "containerd: cannot read pid file"), p)
  | S n' =>
      r ← ReadFile (Join (root p) "pid");
      match r with
      | inr err =>
          if IsNotExist err then
            _ ← Sleep 100;
            getPid_loop n' p
          else ret (-1, Some err, p)
      | inl data =>
          let '(i, err) := strconv.Atoi data in
          match err with
          | Some e => ret (-1, Some (NumError data e), p)
          | None => ret (i, None, set_pid p i)
          end
      end
  end.

Definition getPid (p : process) : M (Z * option error * process) :=
  getPid_loop 20 p.

(** Lines 95-122. *)
Definition loadProcess (root_ id_ : string) (c : container) (s : ProcessState)
  : M (process + error) :=
  let p := mkProcess root_ id_ 0 None None c (ps_Process s)
                     (mkStdio (ps_Stdin s) (ps_Stdout s) (ps_Stderr s)) in
  '(_, err, p) ← getPid p;
  match err with
  | Some e => ret (inr e)
  | None =>
      '(_, err) ← ExitStatus p;
      match err with
      | Some e =>
          if decide (e = ErrProcessNotExited) then
            r ← getExitPipe (Join root_ ExitFile);
            match r with
            | inr e' => ret (inr e')
            | inl exit => ret (inl (set_exitPipe p (Some exit)))
            end
          else ret (inr e)
      | None => ret (inl p)
      end
  end.

(** Lines 152-160. *)
Definition CloseStdin (p : process) : M (option error) :=
  Fprintf (controlPipe p) ("%d %d %d" ++ nl) [0; 0; 0].

Definition Resize (p : process) (w h : Z) : M (option error) :=
  Fprintf (controlPipe p) ("%d %d %d" ++ nl) [1; w; h].

(** Lines 135-145, 176-182: the accessors. *)
Definition ID (p : process) : string := id p.
Definition SystemPid (p : process) : Z := pid p.
Definition Container (p : process) : container := p_container p.
Definition Spec (p : process) : specs_Process := spec p.
Definition Stdio_ (p : process) : Stdio := stdio p.

(** Lines 147-150.  A handle stands for its descriptor; [Fd] of a nil
    [*os.File] is [^uintptr(0)], which [int] reads as -1. *)
Definition ExitFD (p : process) : Z :=
  match exitPipe p with
  | None => -1
  | Some f => Z.of_nat f
  end.

(** What [close] answers for a handle, by the number of calls answered
    so far. *)
Variable close_file : nat -> File -> option error.

(** Lines 185-187.  [Close] of a nil exit pipe answers [ErrInvalid];
    otherwise the handle is released and the answer of [close] is
    returned. *)
Definition Close (p : process) : M (option error) :=
  match exitPipe p with
  | None => ret (Some ErrInvalid)
  | Some f => fun w => (close_file (tick w) f, snd (File_Close f w))
  end.

(** The record [newProcess] writes to [process.json] (lines 70-79). *)
Definition record_of (config : processConfig) : ProcessState :=
  let '(uid, gid, _) := getRootIDs (cfg_spec config) in
  mkProcessState (cfg_processSpec config) (cfg_exec config) (cfg_checkpoint config)
                 uid gid
                 (Stdin (cfg_stdio config)) (Stdout (cfg_stdio config))
                 (Stderr (cfg_stdio config)).

(** *** Vocabulary of the statements *)

(** The oracle's answer reports the file as absent. *)
Definition absent (r : string + string * Z) : Prop :=
  exists op, r = inr (op, ENOENT).

(** The events of [w'] that are not yet in [w]. *)
Definition emitted (w w' : World) (evs : list Event) : Prop :=
  trace w' = (trace w ++ evs)%list.

(** [k] rounds of polling [path]: a read that finds nothing, then a pause
    of 100 ms. *)
Fixpoint polls (k : nat) (path : string) : list Event :=
  match k with
  | O => nil
  | S k' => EvReadFile path :: EvSleep 100 :: polls k' path
  end.

(** The error [getPid] returns when its attempts are used up. *)
Definition ErrPidTimeout : error := Errorf "containerd: cannot read pid file".

(** *** Unfolding the monad *)

Ltac run :=
  unfold ret, mret, M_ret, mbind, M_bind in *; cbn beta iota in *.

Lemma length_zero_iff_empty (s : string) :
  (String.length s =? 0)%nat = true <-> s = "".
Proof. destruct s; simpl; split; intros H; try reflexivity; discriminate. Qed.

(** *** ExitStatus *)

(** C6.  [ExitStatus] reads the exit-status artifact once.  It answers
    [ErrProcessNotExited] (with the placeholder -1, no exit code) exactly
    when the file is absent or empty; a file holding the decimal numeral
    of an [int] gives that integer and no error; any other content gives
    a [NumError], and any other read failure is returned as it is. *)
Theorem ExitStatus_spec (p : process) (w : World) :
  let path := Join (root p) ExitStatusFile in
  let answer := read_file w (tick w) path in
  let '(n, err, w') := ExitStatus p w in
  emitted w w' [EvReadFile path] /\
  (err = Some ErrProcessNotExited <-> absent answer \/ answer = inl "") /\
  (err = Some ErrProcessNotExited -> n = -1) /\
  (forall data z,
      answer = inl data -> strconv.decimal_value data = Some z ->
      strconv.in_int_range z -> n = z /\ err = None) /\
  (forall data,
      answer = inl data -> data <> "" ->
      (forall z, strconv.decimal_value data = Some z -> ~ strconv.in_int_range z) ->
      exists kind, err = Some (NumError data kind)) /\
  (forall op errno,
      answer = inr (op, errno) -> errno <> ENOENT ->
      n = -1 /\ err = Some (PathError op path errno)).
Proof.
  cbv zeta. unfold ExitStatus, ReadFile, absent, emitted. run.
  destruct (read_file w (tick w) (Join (root p) ExitStatusFile))
    as [data | [op errno]] eqn:Ans.
  - destruct (String.length data =? 0)%nat eqn:Elen.
    + apply length_zero_iff_empty in Elen; subst data. simpl.
      split; [reflexivity|]. split; [split; [right; reflexivity | reflexivity]|].
      split; [reflexivity|]. split; [|split].
      * intros data z H; inversion H; subst. discriminate.
      * intros data H Hne; inversion H; subst. contradiction.
      * intros ? ? H; discriminate.
    + assert (data <> "") as Hne.
      { intros ->. discriminate. }
      destruct (strconv.Atoi data) as [n e] eqn:EA. simpl.
      split; [reflexivity|]. split; [|split; [|split; [|split]]].
      * split.
        -- destruct e; discriminate.
        -- intros [[op H] | H]; [discriminate | inversion H; subst; contradiction].
      * destruct e; discriminate.
      * intros d z H Hd Hr; inversion H; subst d.
        assert (strconv.Atoi data = (z, None)) as EA'
          by (apply strconv.Atoi_ok; split; assumption).
        rewrite EA in EA'. inversion EA'; subst. split; reflexivity.
      * intros d H _ Hbad; inversion H; subst d.
        destruct e as [k|]; [exists k; reflexivity|].
        apply strconv.Atoi_ok in EA as [E1 E2]. destruct (Hbad _ E1 E2).
      * intros ? ? H; discriminate.
  - simpl. destruct (errno =? ENOENT) eqn:Eno; simpl.
    + apply Z.eqb_eq in Eno; subst errno.
      split; [reflexivity|]. split; [split; [left; eauto | reflexivity]|].
      split; [reflexivity|]. split; [|split].
      * intros ? ? H; discriminate.
      * intros ? H; discriminate.
      * intros ? ? H Hne; inversion H; subst. contradiction.
    + apply Z.eqb_neq in Eno.
      split; [reflexivity|]. split; [split|].
      * discriminate.
      * intros [[op' H] | H]; [inversion H; subst; contradiction | discriminate].
      * split; [discriminate|]. split; [|split].
        -- intros ? ? H; discriminate.
        -- intros ? H; discriminate.
        -- intros ? ? H _; inversion H; subst. split; reflexivity.
Qed.

(** *** getPid *)

(** What the attempt that ends the polling returns, given the oracle's
    answer to it: a read error other than "absent" as it is; the integer a
    numeral denotes, recorded in [pid]; a [NumError] for anything else. *)
Definition final_attempt (path : string) (answer : string + string * Z)
    (p : process) (res : Z) (err : option error) (p' : process) : Prop :=
  match answer with
  | inr (op, errno) =>
      errno <> ENOENT /\ res = -1 /\ err = Some (PathError op path errno) /\ p' = p
  | inl data =>
      (forall z, strconv.decimal_value data = Some z -> strconv.in_int_range z ->
                 res = z /\ err = None /\ p' = set_pid p z) /\
      ((forall z, strconv.decimal_value data = Some z -> ~ strconv.in_int_range z) ->
       res = -1 /\ (exists kind, err = Some (NumError data kind)) /\ p' = p)
  end.

(** The polling loop with [n] attempts left.  [k] is the number of
    attempts that found the file absent. *)
Definition polling_result (n : nat) (p : process) (w : World)
    (res : Z) (err : option error) (p' : process) (w' : World) : Prop :=
  let path := Join (root p) "pid" in
  let answer j := read_file w (tick w + j)%nat path in
  exists k : nat,
    (forall j, (j < k)%nat -> absent (answer j)) /\
    ((k = n /\ emitted w w' (polls n path) /\
      res = -1 /\ err = Some ErrPidTimeout /\ p' = p)
     \/
     ((k < n)%nat /\ emitted w w' (polls k path ++ [EvReadFile path])%list /\
      final_attempt path (answer k) p res err p')).

Lemma getPid_loop_spec n : forall p w,
  let '(res, err, p', w') := getPid_loop n p w in
  polling_result n p w res err p' w' /\
  read_file w' = read_file w /\ open_files w' = open_files w /\
  open_pipe w' = open_pipe w /\ next_file w' = next_file w.
Proof.
  induction n as [|n IH]; intros p w.
  - simpl. run. split; [|auto].
    exists O. split; [intros j Hj; lia|]. left.
    unfold emitted. simpl. rewrite app_nil_r. auto.
  - cbn [getPid_loop]. unfold ReadFile, Sleep. run.
    set (path := Join (root p) "pid").
    destruct (read_file w (tick w) path) as [data | [op errno]] eqn:Ans.
    + destruct (strconv.Atoi data) as [i e] eqn:EA.
      assert (polling_result (S n) p w
                (match e with Some _ => -1 | None => i end)
                (NumError data <$> e)
                (match e with Some _ => p | None => set_pid p i end)
                (step w (EvReadFile path) (open_files w) (next_file w))) as HR.
      { exists O. split; [intros j Hj; lia|]. right.
        split; [lia|]. split; [reflexivity|].
        fold path. rewrite Nat.add_0_r, Ans. split.
        - intros z Hz Hr.
          assert (strconv.Atoi data = (z, None)) as EA'
            by (apply strconv.Atoi_ok; split; assumption).
          rewrite EA in EA'. inversion EA'; subst. auto.
        - intros Hbad. destruct e as [k|]; [simpl; eauto|].
          apply strconv.Atoi_ok in EA as [E1 E2]. destruct (Hbad _ E1 E2). }
      destruct e; simpl in *; (split; [exact HR | auto]).
    + simpl. destruct (errno =? ENOENT) eqn:Eno.
      * apply Z.eqb_eq in Eno; subst errno.
        set (w2 := mkWorld _ _ _ _ _ _ _ _ _).
        specialize (IH p w2).
        destruct (getPid_loop n p w2) as [[[res err] p'] w'].
        unfold polling_result in IH |- *. cbv zeta in IH |- *.
        destruct IH as [(k & Habs & Hk) Hsame].
        split; [|exact Hsame].
        exists (S k). fold path in Habs, Hk |- *. split.
        -- intros [|j] Hj.
           ++ rewrite Nat.add_0_r, Ans. exists op; reflexivity.
           ++ specialize (Habs j ltac:(lia)). simpl in Habs.
              replace (tick w + S j)%nat with (S (tick w + j)) by lia. exact Habs.
        -- unfold emitted in *. simpl in Hk.
           destruct Hk as [(-> & Htr & H) | (Hlt & Htr & H)].
           ++ left. split; [reflexivity|]. split; [|exact H].
              rewrite Htr. rewrite <- !app_assoc. reflexivity.
           ++ right. split; [lia|]. split.
              ** rewrite Htr. rewrite <- !app_assoc. reflexivity.
              ** replace (tick w + S k)%nat with (S (tick w + k)) by lia. exact H.
      * apply Z.eqb_neq in Eno. split; [|auto].
        exists O. split; [intros j Hj; lia|]. right.
        split; [lia|]. split; [reflexivity|].
        fold path. rewrite Nat.add_0_r, Ans. simpl. auto.
Qed.

(** What [getPid_loop] does to the supervisor: on success it is the
    supervisor with the result stored by [set_pid], on failure it is the
    supervisor as it was. *)
Lemma getPid_loop_frame n : forall p w,
  let '(res, err, p', w') := getPid_loop n p w in
  match err with
  | None => p' = set_pid p res
  | Some _ => p' = p
  end.
Proof.
  induction n as [|n IH]; intros p w; [reflexivity|].
  cbn [getPid_loop]. unfold ReadFile, Sleep. run.
  destruct (read_file w (tick w) (Join (root p) "pid")) as [data | [op errno]].
  - destruct (strconv.Atoi data) as [i [e|]]; reflexivity.
  - simpl. destruct (errno =? ENOENT); [apply IH | reflexivity].
Qed.

(** C5.  [getPid] reads the pid file at most 20 times.  Each read that
    finds the file absent is followed by a pause of 100 ms and the next
    attempt; the first read that finds anything else ends the polling: a
    read error other than "absent" and a content that is no numeral of an
    [int] are returned as errors at once, and a numeral gives exactly the
    integer it denotes.  After 20 reads that found nothing the result is
    [ErrPidTimeout], an error that is neither a read error nor a parse
    error, and it is returned in no other case.  On success the [pid]
    field of the supervisor holds the integer returned; on failure it
    holds what it held before; no other field of the supervisor is
    changed. *)
Theorem getPid_spec (p : process) (w : World) :
  let '(res, err, p', w') := getPid p w in
  polling_result 20 p w res err p' w' /\
  (forall op path errno, ErrPidTimeout <> PathError op path errno) /\
  (forall num kind, ErrPidTimeout <> NumError num kind) /\
  ErrPidTimeout <> ErrProcessNotExited /\
  (err = Some ErrPidTimeout <->
   forall j, (j < 20)%nat ->
             absent (read_file w (tick w + j)%nat (Join (root p) "pid"))) /\
  (err = None -> pid p' = res) /\
  (err <> None -> pid p' = pid p) /\
  root p' = root p /\ id p' = id p /\
  exitPipe p' = exitPipe p /\ controlPipe p' = controlPipe p /\
  p_container p' = p_container p /\ spec p' = spec p /\ stdio p' = stdio p.
Proof.
  unfold getPid. pose proof (getPid_loop_spec 20 p w) as H.
  pose proof (getPid_loop_frame 20 p w) as HF.
  destruct (getPid_loop 20 p w) as [[[res err] p'] w'].
  destruct H as [HR _]. split; [exact HR|].
  split; [discriminate|]. split; [discriminate|]. split; [discriminate|].
  split.
  { destruct HR as (k & Habs & [(-> & _ & _ & -> & _) | (Hlt & _ & Hfin)]).
    - split; auto.
    - split.
      + intros ->. unfold final_attempt in Hfin.
        destruct (read_file w (tick w + k)%nat (Join (root p) "pid"))
          as [data | [op errno]].
        * destruct Hfin as [Hok Hbad].
          destruct (strconv.decimal_value data) as [z|] eqn:Ez.
          -- destruct (Z_le_dec (- 2 ^ 63) z) as [Hlo|Hlo];
               [destruct (Z_lt_dec z (2 ^ 63)) as [Hhi|Hhi]|].
             ++ destruct (Hok z eq_refl (conj Hlo Hhi)) as (_ & Hn & _). discriminate.
             ++ destruct Hbad as (_ & [kind Hk] & _);
                  [intros z' Hz' [_ ?]; inversion Hz'; subst; lia | discriminate].
             ++ destruct Hbad as (_ & [kind Hk] & _);
                  [intros z' Hz' [? _]; inversion Hz'; subst; lia | discriminate].
          -- destruct Hbad as (_ & [kind Hk] & _);
               [intros z' Hz'; discriminate | discriminate].
        * destruct Hfin as (_ & _ & Hn & _). discriminate.
      + intros Hall. exfalso. specialize (Hall k Hlt).
        unfold final_attempt in Hfin. destruct Hall as [op Ha]. rewrite Ha in Hfin.
        destruct Hfin as [Hne _]. contradiction. }
  destruct err as [e|]; subst p'.
  - split; [discriminate|]. split; [reflexivity|]. repeat split.
  - split; [reflexivity|]. split; [intros Hn; destruct (Hn eq_refl)|]. repeat split.
Qed.

(** *** loadProcess *)

Lemma ExitStatus_world p w :
  snd (ExitStatus p w) =
  step w (EvReadFile (Join (root p) ExitStatusFile)) (open_files w) (next_file w).
Proof.
  unfold ExitStatus, ReadFile. run.
  destruct (read_file w (tick w) _) as [data | [op errno]].
  - destruct (String.length data =? 0)%nat; [reflexivity|].
    destruct (strconv.Atoi data); reflexivity.
  - destruct (IsNotExist _); reflexivity.
Qed.

(** C7.  Reconstruction first rediscovers the PID and returns the failure
    of that step, if any.  Otherwise it reads the exit status: when the
    read gives a status, reconstruction succeeds and no channel is opened;
    when it gives [ErrProcessNotExited], the exit channel is opened, and
    reconstruction succeeds exactly when the open does; any other failure
    of the read is returned. *)
Theorem loadProcess_spec (root_ id_ : string) (c : container) (s : ProcessState)
    (w : World) :
  let p0 := mkProcess root_ id_ 0 None None c (ps_Process s)
                      (mkStdio (ps_Stdin s) (ps_Stdout s) (ps_Stderr s)) in
  let '(_, perr, p1, w1) := getPid p0 w in
  let '(_, xerr, w2) := ExitStatus p1 w1 in
  let '(r, w') := loadProcess root_ id_ c s w in
  (forall e, perr = Some e -> r = inr e /\ w' = w1) /\
  (perr = None ->
   (xerr = None ->
    r = inl p1 /\ w' = w2 /\ exitPipe p1 = None /\ open_files w' = open_files w) /\
   (xerr = Some ErrProcessNotExited ->
    emitted w2 w' [EvOpenPipe (Join root_ ExitFile)] /\
    match open_pipe w (tick w2) (Join root_ ExitFile) with
    | None =>
        r = inl (set_exitPipe p1 (Some (next_file w))) /\
        open_files w' = {[ next_file w ]} ∪ open_files w
    | Some e =>
        r = inr e /\ open_files w' = open_files w
    end) /\
   (forall e, xerr = Some e -> e <> ErrProcessNotExited -> r = inr e /\ w' = w2)).
Proof.
  cbv zeta. unfold loadProcess, getPid. run.
  set (p0 := mkProcess _ _ _ _ _ _ _ _).
  pose proof (getPid_loop_spec 20 p0 w) as HP.
  destruct (getPid_loop 20 p0 w) as [[[res perr] p1] w1].
  destruct HP as (HR & Hrd & Hof & Hop & Hnf).
  assert (exitPipe p1 = None) as Hexit.
  { destruct HR as (k & _ & [(_ & _ & _ & _ & ->) | (_ & _ & Hfin)]); [reflexivity|].
    unfold final_attempt in Hfin.
    destruct (read_file w (tick w + k)%nat (Join (root p0) "pid")) as [data | [op errno]].
    - destruct Hfin as [Hok Hbad].
      destruct (strconv.decimal_value data) as [z|] eqn:Ez.
      + destruct (Z_le_dec (- 2 ^ 63) z) as [Hlo|Hlo];
          [destruct (Z_lt_dec z (2 ^ 63)) as [Hhi|Hhi]|].
        * destruct (Hok z eq_refl (conj Hlo Hhi)) as (_ & _ & ->). reflexivity.
        * destruct Hbad as (_ & _ & ->); [|reflexivity].
          intros z' Hz' [_ ?]; inversion Hz'; subst; lia.
        * destruct Hbad as (_ & _ & ->); [|reflexivity].
          intros z' Hz' [? _]; inversion Hz'; subst; lia.
      + destruct Hbad as (_ & _ & ->); [intros z' Hz'; discriminate | reflexivity].
    - destruct Hfin as (_ & _ & _ & ->). reflexivity. }
  destruct perr as [e|].
  - destruct (ExitStatus p1 w1) as [[n xerr] w2].
    split; [intros e' H; inversion H; subst; auto | discriminate].
  - pose proof (ExitStatus_world p1 w1) as HW.
    destruct (ExitStatus p1 w1) as [[n xerr] w2]. simpl in HW.
    assert (open_pipe w2 = open_pipe w) as Hop2 by (subst w2; exact Hop).
    assert (next_file w2 = next_file w) as Hnf2 by (subst w2; exact Hnf).
    assert (open_files w2 = open_files w) as Hof2 by (subst w2; exact Hof).
    clear HW.
    destruct xerr as [e|].
    + destruct (decide (e = ErrProcessNotExited)) as [->|Hne].
      * unfold getExitPipe, open_channel. rewrite Hop2, Hnf2, Hof2.
        destruct (open_pipe w (tick w2) (Join root_ ExitFile)) as [e|].
        -- split; [discriminate|]. intros _. split; [discriminate|]. split.
           ++ intros _. split; [reflexivity|]. split; reflexivity.
           ++ intros e' H Hne; inversion H; subst; contradiction.
        -- split; [discriminate|]. intros _. split; [discriminate|]. split.
           ++ intros _. split; [reflexivity|]. split; reflexivity.
           ++ intros e' H Hne; inversion H; subst; contradiction.
      * split; [discriminate|]. intros _. split; [discriminate|]. split.
        -- intros H; inversion H; subst; contradiction.
        -- intros e' H _; inversion H; subst. auto.
    + split; [discriminate|]. intros _. split; [|split; discriminate].
      intros _. repeat split; assumption.
Qed.

(** *** The control channel *)

Lemma Sprintf_control (a w h : Z) :
  fmt.Sprintf ("%d %d %d" ++ nl) [a; w; h]
  = fmt.fmt_d a ++ " " ++ fmt.fmt_d w ++ " " ++ fmt.fmt_d h ++ nl.
Proof. reflexivity. Qed.

(** C9.  On a supervisor that holds a control channel, [Resize w h] hands
    the channel exactly one write, of the bytes ["1 <w> <h>\n"], where
    [<w>] and [<h>] are the decimal numerals of [w] and [h]; for 80 and 24
    these are the bytes ["1 80 24\n"].  [CloseStdin] hands it exactly one
    write, of the bytes ["0 0 0\n"]. *)
Theorem control_protocol (p : process) (f : File) (world : World) (w h : Z) :
  controlPipe p = Some f ->
  emitted world (snd (Resize p w h world))
          [EvWrite f ("1 " ++ fmt.fmt_d w ++ " " ++ fmt.fmt_d h ++ nl)] /\
  strconv.decimal_value (fmt.fmt_d w) = Some w /\
  strconv.decimal_value (fmt.fmt_d h) = Some h /\
  emitted world (snd (Resize p 80 24 world)) [EvWrite f ("1 80 24" ++ nl)] /\
  emitted world (snd (CloseStdin p world)) [EvWrite f ("0 0 0" ++ nl)].
Proof.
  intros Hf. unfold Resize, CloseStdin, Fprintf, emitted. rewrite Hf.
  rewrite !Sprintf_control. simpl snd.
  split; [reflexivity|].
  split; [apply fmt.fmt_d_decimal|].
  split; [apply fmt.fmt_d_decimal|].
  split; reflexivity.
Qed.

(** Without a control channel (a reconstructed supervisor has none)
    nothing is written and the call fails. *)
Lemma Resize_nil_pipe (p : process) (world : World) (w h : Z) :
  controlPipe p = None -> Resize p w h world = (Some ErrInvalid, world).
Proof. intros H. unfold Resize, Fprintf. rewrite H. reflexivity. Qed.

(** *** newProcess *)

(** Every open handle is older than the next one to be handed out. *)
Definition fresh (w : World) : Prop :=
  forall f, f ∈ open_files w -> (f < next_file w)%nat.

(** X1.  What [newProcess] leaves open, by the step that fails.  When
    [getRootIDs], the creation of [process.json], the writing of the record
    or the opening of the exit channel fails, the error of that step is
    returned and the open files are those of before the call.  When all of
    these succeed and the control channel cannot be opened, its error is
    returned and the exit channel opened just before stays open.  When
    every step succeeds, the two channels, and nothing else, are added to
    the open files. *)
Lemma newProcess_resources (config : processConfig) (w : World) :
  fresh w ->
  let f := next_file w in
  let '(r, w') := newProcess config w in
  match snd (getRootIDs (cfg_spec config)) with
  | Some e => r = inr e /\ open_files w' = open_files w
  | None =>
  match create_file w (tick w) (Join (cfg_root config) "process.json") with
  | Some errno =>
      r = inr (PathError "open" (Join (cfg_root config) "process.json") errno) /\
      open_files w' = open_files w
  | None =>
  match encode_json w (1 + tick w)%nat with
  | Some e => r = inr e /\ open_files w' = open_files w
  | None =>
  match open_pipe w (2 + tick w)%nat (Join (cfg_root config) ExitFile) with
  | Some e => r = inr e /\ open_files w' = open_files w
  | None =>
  match open_pipe w (3 + tick w)%nat (Join (cfg_root config) ControlFile) with
  | Some e =>
      r = inr e /\ (S f ∉ open_files w) /\
      open_files w' = {[ S f ]} ∪ open_files w
  | None =>
      exists p, r = inl p /\
                exitPipe p = Some (S f) /\ controlPipe p = Some (S (S f)) /\
                (S f ∉ open_files w) /\ (S (S f) ∉ open_files w) /\
                open_files w' = {[ S f; S (S f) ]} ∪ open_files w
  end end end end end.
Proof.
  intros Hfresh. cbv zeta. unfold newProcess.
  assert (forall f, (next_file w <= f)%nat -> f ∉ open_files w) as Hnew.
  { intros f Hle Hin. apply Hfresh in Hin. lia. }
  pose proof (Hnew (next_file w) ltac:(lia)).
  pose proof (Hnew (S (next_file w)) ltac:(lia)).
  pose proof (Hnew (S (S (next_file w))) ltac:(lia)).
  assert (S (next_file w) <> next_file w) by lia.
  assert (S (S (next_file w)) <> next_file w) by lia.
  destruct (getRootIDs (cfg_spec config)) as [[uid gid] [e|]]; run; cbn [snd].
  { split; reflexivity. }
  unfold os_Create.
  destruct (create_file w (tick w) _) as [errno|]; run.
  { split; reflexivity. }
  unfold Encode, File_Close. run. cbn [encode_json tick step Nat.add].
  destruct (encode_json w (S (tick w))) as [e|]; run.
  { split; [reflexivity|]. cbn. handles. }
  unfold getExitPipe, getControlPipe, open_channel. cbn.
  destruct (open_pipe w (S (S (tick w))) _) as [e|]; cbn.
  { split; [reflexivity|]. handles. }
  destruct (open_pipe w (S (S (S (tick w)))) _) as [e|]; cbn.
  - split; [reflexivity|]. split; [assumption|]. handles.
  - eexists. split; [reflexivity|]. split; [reflexivity|]. split; [reflexivity|].
    split; [assumption|]. split; [assumption|]. handles.
Qed.

(** *** More on newProcess *)

(** A successful [newProcess], taken apart. *)
Lemma newProcess_success (config : processConfig) (w w1 : World) (p : process) :
  newProcess config w = (inl p, w1) ->
  let f := next_file w in
  p = mkProcess (cfg_root config) (cfg_id config) 0 (Some (S f)) (Some (S (S f)))
                (cfg_c config) (cfg_processSpec config) (cfg_stdio config) /\
  emitted w w1 [ EvCreate (Join (cfg_root config) "process.json");
                 EvEncode f (record_of config);
                 EvOpenPipe (Join (cfg_root config) ExitFile);
                 EvOpenPipe (Join (cfg_root config) ControlFile);
                 EvClose f ] /\
  open_files w1 = ({[ S (S f) ]} ∪ ({[ S f ]} ∪ ({[ f ]} ∪ open_files w))) ∖ {[ f ]} /\
  tick w1 = (5 + tick w)%nat.
Proof.
  unfold newProcess, record_of, emitted.
  destruct (getRootIDs (cfg_spec config)) as [[uid gid] [e|]]; run; [discriminate|].
  unfold os_Create.
  destruct (create_file w (tick w) _) as [errno|]; run; [discriminate|].
  unfold Encode, File_Close. run. cbn [encode_json tick step].
  destruct (encode_json w (S (tick w))) as [e|]; run; [discriminate|].
  unfold getExitPipe, getControlPipe, open_channel. cbn.
  destruct (open_pipe w (S (S (tick w))) _) as [e|]; cbn; [discriminate|].
  destruct (open_pipe w (S (S (S (tick w)))) _) as [e|]; cbn; [discriminate|].
  intros H. inversion H; subst; clear H. cbn.
  split; [reflexivity|]. split; [|split; reflexivity].
  rewrite <- !app_assoc. reflexivity.
Qed.

(** X2.  The steps of [newProcess], by the step that fails.  When
    [getRootIDs] fails its error is returned and nothing is touched.
    Otherwise [process.json] is created first; when that fails its error
    is returned after this one step.  When it succeeds the state record of
    the configuration is written to it before any channel is opened, the
    exit channel is opened before the control channel, the first error
    stops the sequence and is returned, and the last step closes
    [process.json], whether the call succeeds or not.  On success the
    supervisor carries the identifier, root, specification, stdio and
    container of the configuration, pid 0, and two different fresh
    handles. *)
Theorem newProcess_steps (config : processConfig) (w : World) :
  let f := next_file w in
  let create := EvCreate (Join (cfg_root config) "process.json") in
  let encode := EvEncode f (record_of config) in
  let exit := EvOpenPipe (Join (cfg_root config) ExitFile) in
  let control := EvOpenPipe (Join (cfg_root config) ControlFile) in
  let '(r, w') := newProcess config w in
  match snd (getRootIDs (cfg_spec config)) with
  | Some e => r = inr e /\ w' = w
  | None =>
  match create_file w (tick w) (Join (cfg_root config) "process.json") with
  | Some errno =>
      r = inr (PathError "open" (Join (cfg_root config) "process.json") errno) /\
      emitted w w' [create]
  | None =>
  match encode_json w (1 + tick w)%nat with
  | Some e => r = inr e /\ emitted w w' [create; encode; EvClose f]
  | None =>
  match open_pipe w (2 + tick w)%nat (Join (cfg_root config) ExitFile) with
  | Some e => r = inr e /\ emitted w w' [create; encode; exit; EvClose f]
  | None =>
  match open_pipe w (3 + tick w)%nat (Join (cfg_root config) ControlFile) with
  | Some e =>
      r = inr e /\ emitted w w' [create; encode; exit; control; EvClose f]
  | None =>
      exists p, r = inl p /\
        emitted w w' [create; encode; exit; control; EvClose f] /\
        ID p = cfg_id config /\ root p = cfg_root config /\
        Spec p = cfg_processSpec config /\ Stdio_ p = cfg_stdio config /\
        Container p = cfg_c config /\ SystemPid p = 0 /\
        exitPipe p = Some (S f) /\ controlPipe p = Some (S (S f))
  end end end end end.
Proof.
  cbv zeta. unfold newProcess, record_of, emitted.
  destruct (getRootIDs (cfg_spec config)) as [[uid gid] [e|]]; run; cbn [snd].
  { split; reflexivity. }
  unfold os_Create.
  destruct (create_file w (tick w) _) as [errno|]; run.
  { split; reflexivity. }
  unfold Encode, File_Close. run. cbn [encode_json tick step Nat.add].
  destruct (encode_json w (S (tick w))) as [e|]; run.
  { split; [reflexivity|]. cbn. rewrite <- !app_assoc. reflexivity. }
  unfold getExitPipe, getControlPipe, open_channel. cbn.
  destruct (open_pipe w (S (S (tick w))) _) as [e|]; cbn.
  { split; [reflexivity|]. rewrite <- !app_assoc. reflexivity. }
  destruct (open_pipe w (S (S (S (tick w)))) _) as [e|]; cbn.
  { split; [reflexivity|]. rewrite <- !app_assoc. reflexivity. }
  eexists. split; [reflexivity|].
  split; [rewrite <- !app_assoc; reflexivity|]. repeat split.
Qed.

(** *** More on loadProcess *)

(** A successful [getPid_loop]: one of the reads found a numeral of an
    [int], which is the result and the new [pid]. *)
Lemma getPid_loop_success n p w res p' w' :
  getPid_loop n p w = (res, None, p', w') ->
  p' = set_pid p res /\ strconv.in_int_range res /\
  exists (j : nat) data,
    (j < n)%nat /\
    read_file w (tick w + j)%nat (Join (root p) "pid") = inl data /\
    strconv.decimal_value data = Some res.
Proof.
  intros H. pose proof (getPid_loop_spec n p w) as HS. rewrite H in HS.
  destruct HS as [(k & _ & [(_ & _ & _ & Hn & _) | (Hlt & _ & Hfin)]) _];
    [discriminate|].
  unfold final_attempt in Hfin.
  destruct (read_file w (tick w + k)%nat (Join (root p) "pid"))
    as [data | [op errno]] eqn:Ans.
  2: { destruct Hfin as (_ & _ & Hn & _). discriminate. }
  destruct Hfin as [Hok Hbad].
  assert (exists z, strconv.decimal_value data = Some z /\ strconv.in_int_range z)
    as (z & Hz & Hr).
  { destruct (strconv.decimal_value data) as [z|] eqn:Ez.
    - destruct (Z_le_dec (- 2 ^ 63) z) as [Hlo|Hlo];
        [destruct (Z_lt_dec z (2 ^ 63)) as [Hhi|Hhi]|].
      + exists z. split; [reflexivity | split; assumption].
      + destruct Hbad as (_ & [kind Hk] & _); [|discriminate].
        intros z' Hz' [_ ?]; inversion Hz'; subst; lia.
      + destruct Hbad as (_ & [kind Hk] & _); [|discriminate].
        intros z' Hz' [? _]; inversion Hz'; subst; lia.
    - destruct Hbad as (_ & [kind Hk] & _); [intros z' Hz'; discriminate | discriminate]. }
  destruct (Hok z Hz Hr) as (-> & _ & ->).
  split; [reflexivity|]. split; [exact Hr|]. exists k, data. auto.
Qed.

(** The supervisor a successful [loadProcess] returns: only its pid and
    its exit channel are not fixed by the arguments. *)
Lemma loadProcess_shape (root_ id_ : string) (c : container) (s : ProcessState)
    (w : World) :
  match fst (loadProcess root_ id_ c s w) with
  | inl p =>
      exists pid_ exit,
        p = mkProcess root_ id_ pid_ exit None c (ps_Process s)
                      (mkStdio (ps_Stdin s) (ps_Stdout s) (ps_Stderr s))
  | inr _ => True
  end.
Proof.
  unfold loadProcess, getPid. run.
  set (p0 := mkProcess _ _ _ _ _ _ _ _).
  destruct (getPid_loop 20 p0 w) as [[[res perr] p1] w1] eqn:HG.
  destruct perr as [e|]; [exact I|].
  apply getPid_loop_success in HG as (-> & _).
  destruct (ExitStatus (set_pid p0 res) w1) as [[n xerr] w2].
  destruct xerr as [e|]; [|cbn; eauto].
  destruct (decide (e = ErrProcessNotExited)); [|exact I].
  destruct (getExitPipe (Join root_ ExitFile) w2) as [[f|e'] w3]; cbn; eauto.
Qed.

(** The handles a successful [loadProcess] leaves open. *)
Lemma loadProcess_opened (root_ id_ : string) (c : container) (s : ProcessState)
    (w : World) :
  let '(r, w') := loadProcess root_ id_ c s w in
  match r with
  | inl p =>
      (exitPipe p = None /\ open_files w' = open_files w) \/
      (exitPipe p = Some (next_file w) /\
       open_files w' = {[ next_file w ]} ∪ open_files w)
  | inr _ => open_files w' = open_files w
  end.
Proof.
  unfold loadProcess, getPid. run.
  set (p0 := mkProcess _ _ _ _ _ _ _ _).
  pose proof (getPid_loop_spec 20 p0 w) as HP.
  destruct (getPid_loop 20 p0 w) as [[[res perr] p1] w1] eqn:HG.
  destruct HP as (_ & _ & Hof & Hop & Hnf).
  destruct perr as [e|]; [exact Hof|].
  apply getPid_loop_success in HG as (-> & _).
  pose proof (ExitStatus_world (set_pid p0 res) w1) as HW.
  destruct (ExitStatus (set_pid p0 res) w1) as [[n xerr] w2]. simpl in HW.
  assert (open_pipe w2 = open_pipe w) as Hop2 by (subst w2; exact Hop).
  assert (next_file w2 = next_file w) as Hnf2 by (subst w2; exact Hnf).
  assert (open_files w2 = open_files w) as Hof2 by (subst w2; exact Hof).
  clear HW.
  destruct xerr as [e|].
  - destruct (decide (e = ErrProcessNotExited)) as [->|Hne]; [|exact Hof2].
    unfold getExitPipe, open_channel. rewrite Hop2, Hnf2, Hof2.
    destruct (open_pipe w (tick w2) (Join root_ ExitFile)) as [e|];
      [reflexivity|].
    cbn. right. split; reflexivity.
  - cbn. left. split; [reflexivity | exact Hof2].
Qed.

(** X3.  What [loadProcess] returns.  A reconstructed supervisor carries
    the root, identifier and container it was given and the specification
    and stdio of the record; its pid is the integer one of the (at most
    20) reads of the pid file found; it has no control channel; and it
    holds either no exit channel, and then no handle was opened, or the
    one handle the call opened.  A failed reconstruction leaves no handle
    open. *)
Theorem loadProcess_result (root_ id_ : string) (c : container) (s : ProcessState)
    (w : World) :
  let '(r, w') := loadProcess root_ id_ c s w in
  match r with
  | inl p =>
      root p = root_ /\ ID p = id_ /\ Container p = c /\
      Spec p = ps_Process s /\
      Stdio_ p = mkStdio (ps_Stdin s) (ps_Stdout s) (ps_Stderr s) /\
      controlPipe p = None /\
      strconv.in_int_range (SystemPid p) /\
      (exists (j : nat) data,
          (j < 20)%nat /\
          read_file w (tick w + j)%nat (Join root_ "pid") = inl data /\
          strconv.decimal_value data = Some (SystemPid p)) /\
      ((exitPipe p = None /\ open_files w' = open_files w) \/
       (exitPipe p = Some (next_file w) /\
        open_files w' = {[ next_file w ]} ∪ open_files w))
  | inr e => open_files w' = open_files w
  end.
Proof.
  unfold loadProcess, getPid. run.
  set (p0 := mkProcess _ _ _ _ _ _ _ _).
  pose proof (getPid_loop_spec 20 p0 w) as HP.
  destruct (getPid_loop 20 p0 w) as [[[res perr] p1] w1] eqn:HG.
  destruct HP as (_ & _ & Hof & Hop & Hnf).
  destruct perr as [e|]; [exact Hof|].
  apply getPid_loop_success in HG as (-> & Hr & j & data & Hj & Hread & Hval).
  pose proof (ExitStatus_world (set_pid p0 res) w1) as HW.
  destruct (ExitStatus (set_pid p0 res) w1) as [[n xerr] w2]. simpl in HW.
  assert (open_pipe w2 = open_pipe w) as Hop2 by (subst w2; exact Hop).
  assert (next_file w2 = next_file w) as Hnf2 by (subst w2; exact Hnf).
  assert (open_files w2 = open_files w) as Hof2 by (subst w2; exact Hof).
  clear HW.
  destruct xerr as [e|].
  - destruct (decide (e = ErrProcessNotExited)) as [->|Hne]; [|exact Hof2].
    unfold getExitPipe, open_channel. rewrite Hop2, Hnf2, Hof2.
    destruct (open_pipe w (tick w2) (Join root_ ExitFile)) as [e|];
      [reflexivity|].
    cbn. do 6 (split; [reflexivity|]). split; [exact Hr|].
    split; [exists j, data; auto|]. right. split; reflexivity.
  - cbn. do 6 (split; [reflexivity|]). split; [exact Hr|].
    split; [exists j, data; auto|]. left. split; [reflexivity | exact Hof2].
Qed.

(** X4.  A reconstructed supervisor cannot be resized and its stdin
    cannot be closed: [loadProcess] never opens the control channel, so
    both calls fail with [ErrInvalid] and write nothing. *)
Theorem loaded_process_has_no_control (root_ id_ : string) (c : container)
    (s : ProcessState) (w w' : World) (p : process) :
  loadProcess root_ id_ c s w = (inl p, w') ->
  forall (world : World) (x y : Z),
    Resize p x y world = (Some ErrInvalid, world) /\
    CloseStdin p world = (Some ErrInvalid, world).
Proof.
  intros H world x y.
  pose proof (loadProcess_shape root_ id_ c s w) as HC.
  rewrite H in HC. destruct HC as (pid_ & exit & ->).
  split; reflexivity.
Qed.

(** X5.  [Close] after [loadProcess] leaves open exactly the handles that
    were open before the reconstruction.  When the process had already
    exited there is no exit channel: [Close] then fails with [ErrInvalid]
    and does nothing, and [ExitFD] is -1. *)
Theorem Close_after_loadProcess (root_ id_ : string) (c : container)
    (s : ProcessState) (w w' : World) (p : process) :
  fresh w ->
  loadProcess root_ id_ c s w = (inl p, w') ->
  open_files (snd (Close p w')) = open_files w /\
  (exitPipe p = None -> Close p w' = (Some ErrInvalid, w') /\ ExitFD p = -1).
Proof.
  intros Hfresh H.
  pose proof (loadProcess_opened root_ id_ c s w) as HO. rewrite H in HO.
  split.
  - unfold Close. destruct HO as [[-> Hof] | [-> Hof]]; cbn.
    + exact Hof.
    + rewrite Hof.
      assert (next_file w ∉ open_files w) as Hnew
        by (intros Hin; apply Hfresh in Hin; lia).
      handles.
  - intros Hnone. unfold Close, ExitFD. rewrite Hnone. split; reflexivity.
Qed.

(** X6.  [Close] after a successful [newProcess] releases the exit
    channel and returns what [close] answered, but the control channel
    stays open: after it the open files are those of before the
    construction and the control channel.  A second [Close] releases
    nothing more. *)
Theorem Close_after_newProcess (config : processConfig) (w w1 : World) (p : process) :
  fresh w ->
  newProcess config w = (inl p, w1) ->
  let '(err, w2) := Close p w1 in
  exists exit control,
    exitPipe p = Some exit /\ controlPipe p = Some control /\
    err = close_file (tick w1) exit /\
    emitted w1 w2 [EvClose exit] /\
    control ∈ open_files w2 /\
    open_files w2 = {[ control ]} ∪ open_files w /\
    open_files (snd (Close p w2)) = open_files w2.
Proof.
  intros Hfresh H.
  apply newProcess_success in H as (-> & _ & Hof & _).
  unfold Close, File_Close, emitted. cbn.
  exists (S (next_file w)), (S (S (next_file w))).
  assert (forall f, (next_file w <= f)%nat -> f ∉ open_files w) as Hnew.
  { intros f Hle Hin. apply Hfresh in Hin. lia. }
  pose proof (Hnew (next_file w) ltac:(lia)).
  pose proof (Hnew (S (next_file w)) ltac:(lia)).
  pose proof (Hnew (S (S (next_file w))) ltac:(lia)).
  assert (S (next_file w) <> next_file w) by lia.
  assert (S (S (next_file w)) <> next_file w) by lia.
  assert (S (S (next_file w)) <> S (next_file w)) by lia.
  do 4 (split; [reflexivity|]). rewrite Hof.
  split; [|split]; handles.
Qed.

(** X7.  The record [newProcess] writes to [process.json] is enough to
    reconstruct the supervisor: [loadProcess] on that record, with the
    root, identifier and container of the supervisor, gives a supervisor
    with the same root, identifier, container, specification and stdio. *)
Theorem record_round_trip (config : processConfig) (w w1 w2 w2' : World)
    (p p2 : process) :
  newProcess config w = (inl p, w1) ->
  loadProcess (root p) (ID p) (Container p) (record_of config) w2 = (inl p2, w2') ->
  EvEncode (next_file w) (record_of config) ∈ trace w1 /\
  root p2 = root p /\ ID p2 = ID p /\ Container p2 = Container p /\
  Spec p2 = Spec p /\ Stdio_ p2 = Stdio_ p.
Proof.
  intros Hnew Hload.
  apply newProcess_success in Hnew as (-> & Htr & _).
  match type of Hload with
  | loadProcess ?r ?i ?c ?st _ = _ =>
      pose proof (loadProcess_shape r i c st w2) as HS
  end.
  rewrite Hload in HS. clear Hload. destruct HS as (pid_ & exit & ->). cbn.
  split.
  - unfold emitted in Htr. rewrite Htr. apply elem_of_app. right.
    apply list_elem_of_further, list_elem_of_here.
  - unfold Stdio_, Spec, record_of.
    destruct (getRootIDs (cfg_spec config)) as [[uid gid] e]. cbn.
    do 4 (split; [reflexivity|]).
    destruct (cfg_stdio config); reflexivity.
Qed.

(** *** The control messages can be told apart *)

(** A byte of a numeral printed by [%d]: a digit or the minus sign. *)
Definition numeral_char (c : ascii) : bool :=
  match strconv.digit c with
  | Some _ => true
  | None => Ascii.eqb c "-"
  end.

Fixpoint all_numeral (s : string) : bool :=
  match s with
  | EmptyString => true
  | String c rest => numeral_char c && all_numeral rest
  end.

Lemma digits_all_numeral s : forall ds,
  strconv.digits_of s = Some ds -> all_numeral s = true.
Proof.
  induction s as [|c s IH]; intros ds H; [reflexivity|].
  cbn in H. unfold all_numeral; fold all_numeral. unfold numeral_char.
  destruct (strconv.digit c); [|discriminate].
  destruct (strconv.digits_of s) eqn:E; [|discriminate].
  cbn. eapply IH; reflexivity.
Qed.

Lemma fmt_d_all_numeral z : all_numeral (fmt.fmt_d z) = true.
Proof.
  unfold fmt.fmt_d.
  set (u := Z.abs z).
  assert (0 <= u < 2 ^ Z.of_nat (S (Z.to_nat (Z.log2 u)))) as Hu.
  { subst u. split; [lia|].
    pose proof (Z.log2_nonneg (Z.abs z)) as Hl.
    replace (Z.of_nat (S (Z.to_nat (Z.log2 (Z.abs z)))))
      with (Z.succ (Z.log2 (Z.abs z))) by lia.
    destruct (Z.eq_dec (Z.abs z) 0) as [E|E].
    - rewrite E. reflexivity.
    - apply Z.log2_spec. lia. }
  destruct (fmt.fmt_digits_spec _ u EmptyString nil Hu eq_refl) as (ds & _ & Hds & _).
  apply digits_all_numeral in Hds.
  destruct (z <? 0); [|exact Hds].
  unfold all_numeral; fold all_numeral. rewrite Hds. reflexivity.
Qed.

Lemma fmt_d_injective a b : fmt.fmt_d a = fmt.fmt_d b -> a = b.
Proof.
  intros H. pose proof (fmt.fmt_d_decimal a) as Ha.
  rewrite H, fmt.fmt_d_decimal in Ha. congruence.
Qed.

(** Two numerals followed by a byte that is no numeral byte: where the
    first numeral ends is determined by the bytes. *)
Lemma numeral_prefix_unique a : forall b ca cb ra rb,
  all_numeral a = true -> all_numeral b = true ->
  numeral_char ca = false -> numeral_char cb = false ->
  a ++ String ca ra = b ++ String cb rb ->
  a = b /\ ra = rb.
Proof.
  induction a as [|x a IH]; intros b ca cb ra rb Ha Hb Hca Hcb Heq.
  - destruct b as [|y b]; cbn in Heq.
    + inversion Heq. auto.
    + inversion Heq; subst. cbn in Hb. rewrite Hca in Hb. discriminate.
  - destruct b as [|y b]; cbn in Heq.
    + inversion Heq; subst. cbn in Ha. rewrite Hcb in Ha. discriminate.
    + inversion Heq; subst. cbn in Ha, Hb.
      apply andb_true_iff in Ha as [_ Ha]. apply andb_true_iff in Hb as [_ Hb].
      destruct (IH b ca cb ra rb Ha Hb Hca Hcb ltac:(assumption)) as [-> ->].
      auto.
Qed.

Lemma control_message_injective (a w h a' w' h' : Z) :
  fmt.Sprintf ("%d %d %d" ++ nl) [a; w; h]
  = fmt.Sprintf ("%d %d %d" ++ nl) [a'; w'; h'] ->
  a = a' /\ w = w' /\ h = h'.
Proof.
  rewrite !Sprintf_control. intros H.
  change (fmt.fmt_d a ++ String " " (fmt.fmt_d w ++ String " " (fmt.fmt_d h ++ nl))
          = fmt.fmt_d a' ++ String " " (fmt.fmt_d w' ++ String " " (fmt.fmt_d h' ++ nl)))
    in H.
  apply numeral_prefix_unique in H as [Ha H];
    try apply fmt_d_all_numeral; try reflexivity.
  apply numeral_prefix_unique in H as [Hw H];
    try apply fmt_d_all_numeral; try reflexivity.
  unfold nl in H.
  apply numeral_prefix_unique in H as [Hh _];
    try apply fmt_d_all_numeral; try reflexivity.
  auto using fmt_d_injective.
Qed.

(** X8.  The control protocol is unambiguous.  On a supervisor that holds
    a control channel, the bytes [Resize] writes determine the width and
    the height, and no [Resize] writes the bytes [CloseStdin] writes. *)
Theorem control_messages_unambiguous (p : process) (f : File) (world : World)
    (w h w' h' : Z) :
  controlPipe p = Some f ->
  (trace (snd (Resize p w h world)) = trace (snd (Resize p w' h' world)) ->
   w = w' /\ h = h') /\
  trace (snd (CloseStdin p world)) <> trace (snd (Resize p w h world)).
Proof.
  intros Hf. unfold Resize, CloseStdin, Fprintf. rewrite Hf. cbn [snd trace step].
  split.
  - intros H. apply app_inv_head in H.
    assert (fmt.Sprintf ("%d %d %d" ++ nl) [1; w; h]
            = fmt.Sprintf ("%d %d %d" ++ nl) [1; w'; h']) as Hmsg by congruence.
    apply control_message_injective in Hmsg as (_ & ? & ?). auto.
  - intros H. apply app_inv_head in H.
    assert (fmt.Sprintf ("%d %d %d" ++ nl) [0; 0; 0]
            = fmt.Sprintf ("%d %d %d" ++ nl) [1; w; h]) as Hmsg by congruence.
    apply control_message_injective in Hmsg as (Hbad & _). discriminate.
Qed.

End Supervisor.

(** *** A run of [newProcess] whose control channel cannot be opened *)

(** The operating system answers every call with success, except the
    opening of the control channel, which is refused ([EACCES]). *)
Definition refusing_control : @World unit :=
  mkWorld (fun _ _ => inr ("open", ENOENT))
          (fun _ _ => None)
          (fun _ => None)
          (fun _ path => if String.eqb path "/run/c1/init/control"
                         then Some (PathError "open" path 13) else None)
          (fun _ _ _ => None)
          0%nat ∅ 0%nat nil.

Definition init_config : @processConfig unit unit unit :=
  mkProcessConfig "init" "/run/c1/init" tt None tt
                  (mkStdio "/dev/null" "/dev/null" "/dev/null") false "".

(** C4.  When the control channel cannot be opened, [newProcess] returns
    the error while the exit channel it opened (handle 1) is still open:
    the deferred close releases [process.json] (handle 0) only. *)
Theorem newProcess_leaks_exit_pipe :
  let '(r, w') := newProcess "exit" "control" (fun _ => (0, 0, None))
                             init_config refusing_control in
  r = inr (PathError "open" "/run/c1/init/control" 13) /\
  open_files w' = {[ 1%nat ]} /\
  trace w' = [ EvCreate "/run/c1/init/process.json";
               EvEncode 0%nat (mkProcessState tt false "" 0 0
                                 "/dev/null" "/dev/null" "/dev/null");
               EvOpenPipe "/run/c1/init/exit";
               EvOpenPipe "/run/c1/init/control";
               EvClose 0%nat ].
Proof.
  cbn. split; [reflexivity|]. split; [|reflexivity].
  handles.
Qed.

(** *** Runs of the supervisor after a restart *)

(** The pid file appears between the second and the third read; there is
    no exit status yet. *)
Definition late_pid : @World unit :=
  mkWorld (fun t path => if String.eqb path "/run/c1/init/pid" && (2 <=? t)%nat
                         then inl "1234" else inr ("open", ENOENT))
          (fun _ _ => None) (fun _ => None) (fun _ _ => None) (fun _ _ _ => None)
          0%nat ∅ 0%nat nil.

Definition blank_process : @process unit unit :=
  mkProcess "/run/c1/init" "init" 0 None None tt tt (mkStdio "" "" "").

Example getPid_late_pid :
  let '(res, err, p', w') := getPid blank_process late_pid in
  res = 1234 /\ err = None /\ pid p' = 1234 /\
  trace w' = [ EvReadFile "/run/c1/init/pid"; EvSleep 100;
               EvReadFile "/run/c1/init/pid"; EvSleep 100;
               EvReadFile "/run/c1/init/pid" ].
Proof. vm_compute. repeat split. Qed.

Example getPid_timeout :
  let '(res, err, p', w') := getPid blank_process refusing_control in
  res = -1 /\ err = Some ErrPidTimeout /\ pid p' = 0 /\
  trace w' = polls 20 "/run/c1/init/pid".
Proof. vm_compute. repeat split. Qed.

Example loadProcess_running :
  let '(res, w') := loadProcess "exit" "exitStatus" "/run/c1/init" "init" tt
                      (mkProcessState tt false "" 0 0 "" "" "") late_pid in
  res = inl (mkProcess "/run/c1/init" "init" 1234 (Some 0%nat) None tt tt
                       (mkStdio "" "" "")) /\
  open_files w' = {[ 0%nat ]}.
Proof. cbn. split; [reflexivity | handles]. Qed.

Example ExitStatus_not_exited :
  fst (ExitStatus "exitStatus" blank_process late_pid) = (-1, Some ErrProcessNotExited).
Proof. reflexivity. Qed.

(** *** Runs of construction, reconstruction and release *)

Definition root_ids : option unit -> Z * Z * option error := fun _ => (0, 0, None).

Definition close_ok : nat -> File -> option error := fun _ _ => None.

(** The supervisor [newProcess] builds for [init_config] when every call
    succeeds, and the world it leaves. *)
Definition built_process : @process unit unit :=
  mkProcess "/run/c1/init" "init" 0 (Some 1%nat) (Some 2%nat) tt tt
            (mkStdio "/dev/null" "/dev/null" "/dev/null").

Definition built_world : @World unit :=
  snd (newProcess "exit" "control" root_ids init_config late_pid).

(** The supervisor [loadProcess] rebuilds from the record, in the world
    [newProcess] left. *)
Definition rebuilt_process : @process unit unit :=
  mkProcess "/run/c1/init" "init" 1234 (Some 3%nat) None tt tt
            (mkStdio "/dev/null" "/dev/null" "/dev/null").

Definition rebuilt_world : @World unit :=
  snd (loadProcess "exit" "exitStatus" "/run/c1/init" "init" tt
                   (record_of root_ids init_config) built_world).

Lemma fresh_late_pid : fresh late_pid.
Proof. intros f Hf. apply not_elem_of_empty in Hf. destruct Hf. Defined.

Lemma fresh_built_world : fresh built_world.
Proof.
  intros f Hf. change (f ∈ open_files built_world) in Hf.
  assert (open_files built_world = {[ 1%nat; 2%nat ]}) as E by (cbn; handles).
  rewrite E in Hf. cbn. set_unfold. destruct Hf as [-> | ->]; lia.
Defined.

Lemma fresh_refusing_control : fresh refusing_control.
Proof. intros f Hf. apply not_elem_of_empty in Hf. destruct Hf. Defined.

(** The witness of X1: the control channel is refused, and the exit
    channel (handle 1) stays open. *)
Lemma newProcess_resources_witness :
  fresh refusing_control /\
  fst (newProcess "exit" "control" root_ids init_config refusing_control)
  = inr (PathError "open" "/run/c1/init/control" 13) /\
  (1%nat ∉ open_files refusing_control) /\
  open_files (snd (newProcess "exit" "control" root_ids init_config refusing_control))
  = {[ 1%nat ]} ∪ open_files refusing_control.
Proof.
  split; [exact fresh_refusing_control|].
  exact (newProcess_resources "exit" "control" root_ids init_config refusing_control
           fresh_refusing_control).
Defined.

(** The witness of X4. *)
Lemma loaded_process_has_no_control_witness :
  loadProcess "exit" "exitStatus" "/run/c1/init" "init" tt
              (record_of root_ids init_config) built_world
  = (inl rebuilt_process, rebuilt_world) /\
  forall (world : @World unit) (x y : Z),
    Resize rebuilt_process x y world = (Some ErrInvalid, world) /\
    CloseStdin rebuilt_process world = (Some ErrInvalid, world).
Proof.
  split; [reflexivity|].
  exact (loaded_process_has_no_control "exit" "exitStatus" "/run/c1/init" "init" tt
           (record_of root_ids init_config) built_world rebuilt_world
           rebuilt_process eq_refl).
Defined.

(** The witness of X5. *)
Lemma Close_after_loadProcess_witness :
  (fresh built_world /\
   loadProcess "exit" "exitStatus" "/run/c1/init" "init" tt
               (record_of root_ids init_config) built_world
   = (inl rebuilt_process, rebuilt_world)) /\
  open_files (snd (Close close_ok rebuilt_process rebuilt_world))
  = open_files built_world /\
  (exitPipe rebuilt_process = None ->
   Close close_ok rebuilt_process rebuilt_world = (Some ErrInvalid, rebuilt_world) /\
   ExitFD rebuilt_process = -1).
Proof.
  split; [split; [exact fresh_built_world | reflexivity]|].
  exact (Close_after_loadProcess "exit" "exitStatus" close_ok "/run/c1/init" "init" tt
           (record_of root_ids init_config) built_world rebuilt_world
           rebuilt_process fresh_built_world eq_refl).
Defined.

(** The witness of X6. *)
Lemma Close_after_newProcess_witness :
  (fresh late_pid /\
   newProcess "exit" "control" root_ids init_config late_pid
   = (inl built_process, built_world)) /\
  let '(err, w2) := Close close_ok built_process built_world in
  exists exit control,
    exitPipe built_process = Some exit /\ controlPipe built_process = Some control /\
    err = close_ok (tick built_world) exit /\
    emitted built_world w2 [EvClose exit] /\
    control ∈ open_files w2 /\
    open_files w2 = {[ control ]} ∪ open_files late_pid /\
    open_files (snd (Close close_ok built_process w2)) = open_files w2.
Proof.
  split; [split; [exact fresh_late_pid | reflexivity]|].
  exact (Close_after_newProcess "exit" "control" root_ids close_ok init_config
           late_pid built_world built_process fresh_late_pid eq_refl).
Defined.

(** The witness of X7. *)
Lemma record_round_trip_witness :
  (newProcess "exit" "control" root_ids init_config late_pid
   = (inl built_process, built_world) /\
   loadProcess "exit" "exitStatus" (root built_process) (ID built_process)
               (Container built_process) (record_of root_ids init_config) built_world
   = (inl rebuilt_process, rebuilt_world)) /\
  EvEncode (next_file late_pid) (record_of root_ids init_config) ∈ trace built_world /\
  root rebuilt_process = root built_process /\
  ID rebuilt_process = ID built_process /\
  Container rebuilt_process = Container built_process /\
  Spec rebuilt_process = Spec built_process /\
  Stdio_ rebuilt_process = Stdio_ built_process.
Proof.
  split; [split; reflexivity|].
  exact (record_round_trip "exit" "control" "exitStatus" root_ids init_config
           late_pid built_world built_world rebuilt_world
           built_process rebuilt_process eq_refl eq_refl).
Defined.

(** The witness of X8. *)
Lemma control_messages_unambiguous_witness :
  controlPipe built_process = Some 2%nat /\
  (trace (snd (Resize built_process 80 24 late_pid))
   = trace (snd (Resize built_process 80 24 late_pid)) ->
   80 = 80 /\ 24 = 24) /\
  trace (snd (CloseStdin built_process late_pid))
  <> trace (snd (Resize built_process 80 24 late_pid)).
Proof.
  split; [reflexivity|].
  exact (control_messages_unambiguous built_process 2%nat late_pid 80 24 80 24 eq_refl).
Defined.

(** The witness of C9: a supervisor of an init process that holds control
    channel 7. *)
Definition init_process : @process unit unit :=
  mkProcess "/run/c1/init" "init" 1234 (Some 6%nat) (Some 7%nat) tt tt
            (mkStdio "/dev/null" "/dev/null" "/dev/null").

Lemma control_protocol_witness :
  controlPipe init_process = Some 7%nat /\
  (emitted refusing_control (snd (Resize init_process 80 24 refusing_control))
           [EvWrite 7%nat ("1 " ++ fmt.fmt_d 80 ++ " " ++ fmt.fmt_d 24 ++ nl)] /\
   strconv.decimal_value (fmt.fmt_d 80) = Some 80 /\
   strconv.decimal_value (fmt.fmt_d 24) = Some 24 /\
   emitted refusing_control (snd (Resize init_process 80 24 refusing_control))
           [EvWrite 7%nat ("1 80 24" ++ nl)] /\
   emitted refusing_control (snd (CloseStdin init_process refusing_control))
           [EvWrite 7%nat ("0 0 0" ++ nl)]).
Proof.
  split; [reflexivity|].
  exact (control_protocol init_process 7%nat refusing_control 80 24 eq_refl).
Defined.

End runtime.

(* ===================================================================== *)
(** ** execution: the container registry service *)
(* ===================================================================== *)

Module execution.

(** Errors of the [containerd] package met by the service, and errors of
    a runtime or a container, which the service passes on untouched. *)
Inductive error : Type :=
| ErrContainerExists
| ErrContainerNotExist
| ErrUnknownRuntime
| BackendError (msg : string).

(** Modelled from the spec: [containerd.Status] and its constants are
    declared in another file.  The spec names the four statuses Created,
    Running, Stopped and Paused; the type has other values too, and
    [OtherStatus] stands for any of them.  (Go rejects a [switch] with two
    equal constant cases, so the four constants of lines 145-151 are
    pairwise different.) *)
Inductive Status : Type :=
| CreatedStatus
| RunningStatus
| StoppedStatus
| PausedStatus
| OtherStatus (raw : Z).

(** Modelled from the spec: the generated [container.Status] enumeration
    is not among the sources.  The spec lists its values as CREATED,
    RUNNING, STOPPED, PAUSED; a protobuf enumeration is an [int32] whose
    first value is 0, which is also the value of a variable declared
    without an initialiser. *)
Definition api_Status : Type := Z.
Definition Status_CREATED : api_Status := 0.
Definition Status_RUNNING : api_Status := 1.
Definition Status_STOPPED : api_Status := 2.
Definition Status_PAUSED : api_Status := 3.

(** What [State(ctx)] returns: a status and the pid of the init process. *)
Record State : Type := mkState {
  st_Status : Status;
  st_Pid : Z
}.

Record ContainerInfo : Type := mkContainerInfo {
  info_ID : string;
  info_Runtime : string
}.

Record Mount : Type := mkMount {
  m_Type : string;
  m_Source : string;
  m_Options : list string
}.

Record IO : Type := mkIO {
  io_Stdin : string;
  io_Stdout : string;
  io_Stderr : string;
  io_Terminal : bool
}.

Record CreateOpts : Type := mkCreateOpts {
  o_Spec : string;
  o_Rootfs : list Mount;
  o_IO : IO
}.

(** The request and response messages.  [Spec] is the [Value] of the
    request's [Any]; the request is taken to carry one (line 63
    dereferences it before anything else happens). *)
Record CreateRequest : Type := mkCreateRequest {
  r_ID : string;
  r_Spec : string;
  r_Rootfs : list Mount;
  r_Runtime : string;
  r_Stdin : string;
  r_Stdout : string;
  r_Stderr : string;
  r_Terminal : bool
}.

Record CreateResponse : Type := mkCreateResponse {
  resp_ID : string;
  resp_Pid : Z
}.

(** An entry of a listing. *)
Record api_Container : Type := mkApiContainer {
  c_ID : string;
  c_Pid : Z;
  c_Status : api_Status
}.

Record ListResponse : Type := mkListResponse {
  Containers : list api_Container
}.

Section Service.

(** The state of the runtimes and of their containers: whatever lies
    behind the [Runtime] and [Container] interfaces. *)
Context {W : Type}.

(** The [containerd.Container] interface: a value is its methods. *)
Record Container : Type := mkContainer {
  Info : ContainerInfo;
  Start_ : W -> option error * W;
  State_ : W -> (State + error) * W
}.

(** The [containerd.Runtime] interface. *)
Record Runtime : Type := mkRuntime {
  rt_Create : string -> CreateOpts -> W -> (Container + error) * W;
  rt_Delete : Container -> W -> option error * W;
  rt_Containers : W -> (list Container + error) * W
}.

(** Lines 38-44.  The collector only serves [Events] and is left out. *)
Record Service : Type := mkService {
  runtimes : gmap string Runtime;
  containers : gmap string Container
}.

(** What a request does, in order: the mutex, the accesses to the
    [containers] map, and the calls through the two interfaces. *)
Inductive Event : Type :=
| EvLock
| EvUnlock
| EvLookup (id : string)
| EvInsert (id : string)
| EvRemove (id : string)
| EvRuntimeCreate (id : string)
| EvRuntimeDelete (id : string)
| EvRuntimeContainers (name : string)
| EvStart (id : string)
| EvState (id : string).

Record St : Type := mkSt {
  service : Service;
  backend : W;
  events : list Event
}.

Definition M (A : Type) : Type := St -> A * St.

#[local] Instance M_ret : MRet M := fun A a st => (a, st).

#[local] Instance M_bind : MBind M :=
  fun A B k m st => let '(a, st') := m st in k a st'.

Definition ret {A} (a : A) : M A := mret a.

Definition emit (ev : Event) : M unit :=
  fun st => (tt, mkSt (service st) (backend st) (events st ++ [ev])%list).

(** [s.mu.Lock()] and [s.mu.Unlock()]. *)
Definition Lock : M unit := emit EvLock.
Definition Unlock : M unit := emit EvUnlock.

(** A call through an interface: it runs on the state of the backend. *)
Definition call {A} (ev : Event) (f : W -> A * W) : M A :=
  fun st =>
    let '(a, w') := f (backend st) in
    (a, mkSt (service st) w' (events st ++ [ev])%list).

(** [s.containers[id]], [s.containers[id] = c], [delete(s.containers, id)]. *)
Definition lookup_container (id : string) : M (option Container) :=
  fun st => (containers (service st) !! id,
             mkSt (service st) (backend st) (events st ++ [EvLookup id])%list).

Definition insert_container (id : string) (c : Container) : M unit :=
  fun st => (tt, mkSt (mkService (runtimes (service st))
                                 (<[id := c]> (containers (service st))))
                      (backend st) (events st ++ [EvInsert id])%list).

Definition remove_container (id : string) : M unit :=
  fun st => (tt, mkSt (mkService (runtimes (service st))
                                 (delete id (containers (service st))))
                      (backend st) (events st ++ [EvRemove id])%list).

(** Lines 26-36: a service over the given runtimes, with an empty map. *)
Definition New (rts : gmap string Runtime) : Service := mkService rts ∅.

(** Lines 49-58: at start-up every runtime is asked for its containers,
    in the order [iter] in which [range s.runtimes] yields them, and each
    container is stored under its own identifier. *)
Fixpoint Register_containers (cs : list Container) : M unit :=
  match cs with
  | nil => ret tt
  | c :: rest =>
      _ ← insert_container (info_ID (Info c)) c;
      Register_containers rest
  end.

Fixpoint Register (iter : list (string * Runtime)) : M (option error) :=
  match iter with
  | nil => ret None
  | (name, r) :: rest =>
      cs ← call (EvRuntimeContainers name) (rt_Containers r);
      match cs with
      | inr err => ret (Some err)
      | inl cs =>
          _ ← Register_containers cs;
          Register rest
      end
  end.

(** Lines 180-186.  The runtimes map is read without the lock. *)
Definition getRuntime (name : string) : M (Runtime + error) :=
  fun st => (match runtimes (service st) !! name with
             | Some runtime => inl runtime
             | None => inr ErrUnknownRuntime
             end, st).

(** Lines 170-178. *)
Definition getContainer (id : string) : M (Container + error) :=
  _ ← Lock;
  c ← lookup_container id;
  _ ← Unlock;
  match c with
  | None => ret (inr ErrContainerNotExist)
  | Some c => ret (inl c)
  end.

(** Lines 62-77: the options of the runtime's [Create]. *)
Definition create_opts (r : CreateRequest) : CreateOpts :=
  mkCreateOpts (r_Spec r)
    (fold_left (fun acc m => acc ++ [mkMount (m_Type m) (m_Source m) (m_Options m)])%list
               (r_Rootfs r) nil)
    (mkIO (r_Stdin r) (r_Stdout r) (r_Stderr r) (r_Terminal r)).

(** Lines 61-106. *)
Definition Create (r : CreateRequest) : M (CreateResponse + error) :=
  let opts := create_opts r in
  rt ← getRuntime (r_Runtime r);
  match rt with
  | inr err => ret (inr err)
  | inl runtime =>
      _ ← Lock;
      found ← lookup_container (r_ID r);
      match found with
      | Some _ =>
          _ ← Unlock;
          ret (inr ErrContainerExists)
      | None =>
          created ← call (EvRuntimeCreate (r_ID r)) (rt_Create runtime (r_ID r) opts);
          match created with
          | inr err =>
              _ ← Unlock;
              ret (inr err)
          | inl c =>
              _ ← insert_container (r_ID r) c;
              _ ← Unlock;
              state ← call (EvState (r_ID r)) (State_ c);
              match state with
              | inr err =>
                  _ ← Lock;
                  _ ← remove_container (r_ID r);
                  _ ← call (EvRuntimeDelete (r_ID r)) (rt_Delete runtime c);
                  _ ← Unlock;
                  ret (inr err)
              | inl state =>
                  ret (inl (mkCreateResponse (r_ID r) (st_Pid state)))
              end
          end
      end
  end.

(** Lines 108-117. *)
Definition Start (id : string) : M (option error) :=
  c ← getContainer id;
  match c with
  | inr err => ret (Some err)
  | inl c => call (EvStart id) (Start_ c)
  end.

(** Lines 119-132.  [None] stands for the empty reply with a nil error. *)
Definition Delete (id : string) : M (option error) :=
  c ← getContainer id;
  match c with
  | inr err => ret (Some err)
  | inl c =>
      rt ← getRuntime (info_Runtime (Info c));
      match rt with
      | inr err => ret (Some err)
      | inl runtime => call (EvRuntimeDelete id) (rt_Delete runtime c)
      end
  end.

(** Lines 143-153: [status] starts as the zero value and the [switch],
    which has no [default], assigns it in four cases. *)
Definition api_status_of (s : Status) : api_Status :=
  let status : api_Status := 0 in
  match s with
  | CreatedStatus => Status_CREATED
  | RunningStatus => Status_RUNNING
  | StoppedStatus => Status_STOPPED
  | PausedStatus => Status_PAUSED
  | OtherStatus _ => status
  end.

(** Lines 138-159: the loop over the map, in the order [iter] in which
    [range] happens to yield its entries; [acc] is [resp.Containers]. *)
Fixpoint List_loop (iter : list (string * Container)) (acc : list api_Container)
  : M (list api_Container + error) :=
  match iter with
  | nil => ret (inl acc)
  | (_, c) :: rest =>
      state ← call (EvState (info_ID (Info c))) (State_ c);
      match state with
      | inr err => ret (inr err)
      | inl state =>
          List_loop rest
            (acc ++ [mkApiContainer (info_ID (Info c)) (st_Pid state)
                                    (api_status_of (st_Status state))])%list
      end
  end.

(** Lines 134-161.  [defer s.mu.Unlock()] runs on both returns. *)
Definition List (iter : list (string * Container)) : M (ListResponse + error) :=
  _ ← Lock;
  res ← List_loop iter nil;
  _ ← Unlock;
  match res with
  | inr err => ret (inr err)
  | inl cs => ret (inl (mkListResponse cs))
  end.

(** [iter] is an order in which [range s.containers] may yield the
    entries of the map: each entry once. *)
Definition range_of (m : gmap string Container) (iter : list (string * Container)) : Prop :=
  iter ≡ₚ map_to_list m.

(** *** Vocabulary of the statements *)

(** A call through the [Runtime] interface. *)
Definition is_runtime_call (ev : Event) : bool :=
  match ev with
  | EvRuntimeCreate _ | EvRuntimeDelete _ | EvRuntimeContainers _ => true
  | _ => false
  end.

(** The events that happen while the mutex is held; [held] tells whether
    it is held at the start. *)
Fixpoint under_lock (held : bool) (evs : list Event) : list Event :=
  match evs with
  | nil => nil
  | EvLock :: rest => under_lock true rest
  | EvUnlock :: rest => under_lock false rest
  | ev :: rest => if held then ev :: under_lock held rest else under_lock held rest
  end.

(** The events that happen while the mutex is not held. *)
Fixpoint outside_lock (held : bool) (evs : list Event) : list Event :=
  match evs with
  | nil => nil
  | EvLock :: rest => outside_lock true rest
  | EvUnlock :: rest => outside_lock false rest
  | ev :: rest => if held then outside_lock held rest else ev :: outside_lock held rest
  end.

(** The containers of [iter], asked for their state one after the other
    from the backend state [w] on, all answer: [sts] pairs each with its
    answer, and [w'] is the backend state after the last one. *)
Inductive queried : list (string * Container) -> W -> list (Container * State) -> W -> Prop :=
| queried_nil w : queried nil w nil w
| queried_cons k c rest w st w1 sts w2 :
    State_ c w = (inl st, w1) ->
    queried rest w1 sts w2 ->
    queried ((k, c) :: rest) w ((c, st) :: sts) w2.

(** The entry of a listing for a container and the state it reported. *)
Definition entry_of (cs : Container * State) : api_Container :=
  mkApiContainer (info_ID (Info (fst cs))) (st_Pid (snd cs))
                 (api_status_of (st_Status (snd cs))).

(** The state of the mutex after [evs], when it is [held] or not at the
    start; [None] when [evs] locks the mutex while it is held (the request
    would block for ever) or unlocks it while it is not (a run-time
    panic). *)
Fixpoint mutex_after (held : bool) (evs : list Event) : option bool :=
  match evs with
  | nil => Some held
  | EvLock :: rest => if held then None else mutex_after true rest
  | EvUnlock :: rest => if held then mutex_after false rest else None
  | _ :: rest => mutex_after held rest
  end.

(** Whatever the state, [m] uses the mutex correctly and returns with the
    mutex released. *)
Definition releases_mutex {A} (m : M A) : Prop :=
  forall st, exists new,
    events (snd (m st)) = (events st ++ new)%list /\
    mutex_after false new = Some false.

(** The runtimes of [iter], asked for their containers one after the
    other from the backend state [w] on, all answer: [cs] is what they
    returned, in order, and [w'] the backend state after the last one. *)
Inductive enumerated : list (string * Runtime) -> W -> list Container -> W -> Prop :=
| enumerated_nil w : enumerated nil w nil w
| enumerated_cons name r rest w cs w1 css w2 :
    rt_Containers r w = (inl cs, w1) ->
    enumerated rest w1 css w2 ->
    enumerated ((name, r) :: rest) w (cs ++ css)%list w2.

(** The map after storing each container of [cs], in order, under its
    own identifier. *)
Definition register_all (m : gmap string Container) (cs : list Container)
  : gmap string Container :=
  fold_left (fun m c => <[info_ID (Info c) := c]> m) cs m.

(** The events of the state queries of [List] on the containers of
    [iter]. *)
Definition state_queries (iter : list (string * Container)) : list Event :=
  map (fun kc => EvState (info_ID (Info (snd kc)))) iter.

Ltac run :=
  unfold ret, mret, M_ret, mbind, M_bind in *; cbn beta iota in *.

(** Membership in an explicit list of events. *)
Ltac not_listed H :=
  repeat (apply elem_of_cons in H as [H | H]; [discriminate H|]);
  apply elem_of_nil in H; exact H.

Ltac listed :=
  repeat first [ apply list_elem_of_here | apply list_elem_of_further ].

(** *** Create *)

(** The amended C1.  [Create] takes the mutex before the existence check
    and releases it after the registration, and the runtime's [Create] is
    called in between, with the mutex held; the state query is made with
    the mutex released; when the state query fails, the mutex is taken
    again around the removal of the entry and the runtime's [Delete].  So
    every call through the [Runtime] interface is made under the mutex,
    and no state query is. *)
Theorem Create_lock_scope (r : CreateRequest) (st : St) :
  let id := r_ID r in
  let '(res, st') := Create r st in
  exists new, events st' = (events st ++ new)%list /\
    (new = nil \/
     new = [EvLock; EvLookup id; EvUnlock] \/
     new = [EvLock; EvLookup id; EvRuntimeCreate id; EvUnlock] \/
     new = [EvLock; EvLookup id; EvRuntimeCreate id; EvInsert id; EvUnlock;
            EvState id] \/
     new = [EvLock; EvLookup id; EvRuntimeCreate id; EvInsert id; EvUnlock;
            EvState id;
            EvLock; EvRemove id; EvRuntimeDelete id; EvUnlock]) /\
    List.filter is_runtime_call (outside_lock false new) = nil /\
    (forall i, EvState i ∉ under_lock false new) /\
    (is_Some (runtimes (service st) !! r_Runtime r) ->
     containers (service st) !! id = None ->
     EvRuntimeCreate id ∈ under_lock false new) /\
    (forall resp, res = inl resp ->
       new = [EvLock; EvLookup id; EvRuntimeCreate id; EvInsert id; EvUnlock;
              EvState id] /\
       under_lock false new = [EvLookup id; EvRuntimeCreate id; EvInsert id] /\
       outside_lock false new = [EvState id]).
Proof.
  cbv zeta. unfold Create, getRuntime, Lock, Unlock, emit, lookup_container,
    insert_container, remove_container, call. run.
  destruct (runtimes (service st) !! r_Runtime r) as [runtime|] eqn:Ert; cbn.
  2: { exists nil. rewrite app_nil_r. repeat split; auto.
       - intros i Hi. inversion Hi.
       - intros [? ?]; discriminate.
       - discriminate.
       - discriminate.
       - discriminate. }
  destruct (containers (service st) !! r_ID r) as [c0|] eqn:Ec; cbn.
  { eexists. split; [rewrite <- !app_assoc; reflexivity|].
    split; [auto|]. split; [reflexivity|]. split; [|split].
    - intros i Hi. cbn in Hi. not_listed Hi.
    - intros _ ?; discriminate.
    - intros resp ?; discriminate. }
  destruct (rt_Create runtime (r_ID r) (create_opts r) (backend st))
    as [[c|e] w1]; cbn.
  2: { eexists. split; [rewrite <- !app_assoc; reflexivity|].
       split; [auto|]. split; [reflexivity|]. split; [|split].
       - intros i Hi. cbn in Hi. not_listed Hi.
       - intros _ _. cbn. listed.
       - intros resp ?; discriminate. }
  destruct (State_ c w1) as [[state|e] w2]; cbn.
  - eexists. split; [rewrite <- !app_assoc; reflexivity|].
    split; [auto 6|]. split; [reflexivity|]. split; [|split].
    + intros i Hi. cbn in Hi. not_listed Hi.
    + intros _ _. cbn. listed.
    + intros resp _. repeat split.
  - destruct (rt_Delete runtime c w2) as [derr w3]; cbn.
    eexists. split; [rewrite <- !app_assoc; reflexivity|].
    split; [auto 6|]. split; [reflexivity|]. split; [|split].
    + intros i Hi. cbn in Hi. not_listed Hi.
    + intros _ _. cbn. listed.
    + intros resp ?; discriminate.
Qed.

(** C3.  When the runtime has created the container, the container has
    been registered, and its state query then fails with [e]: the entry
    is removed from the map again (the registry is as before the call),
    the runtime is asked to delete the container, and [Create] returns
    [e], whatever the runtime's [Delete] answered ([derr]). *)
Theorem Create_state_failure (r : CreateRequest) (s : Service) (w : W)
    (evs : list Event) (runtime : Runtime) (c : Container)
    (w1 w2 w3 : W) (e : error) (derr : option error) :
  runtimes s !! r_Runtime r = Some runtime ->
  containers s !! r_ID r = None ->
  rt_Create runtime (r_ID r) (create_opts r) w = (inl c, w1) ->
  State_ c w1 = (inr e, w2) ->
  rt_Delete runtime c w2 = (derr, w3) ->
  let '(res, st') := Create r (mkSt s w evs) in
  res = inr e /\
  containers (service st') !! r_ID r = None /\
  service st' = s /\
  backend st' = w3 /\
  events st' = (evs ++ [EvLock; EvLookup (r_ID r); EvRuntimeCreate (r_ID r);
                        EvInsert (r_ID r); EvUnlock; EvState (r_ID r);
                        EvLock; EvRemove (r_ID r); EvRuntimeDelete (r_ID r);
                        EvUnlock])%list.
Proof.
  intros Hrt Hfree Hcreate Hstate Hdelete.
  unfold Create, getRuntime, Lock, Unlock, emit, lookup_container,
    insert_container, remove_container, call. run. cbn.
  rewrite Hrt. cbn. rewrite Hfree. cbn. rewrite Hcreate. cbn. rewrite Hstate. cbn.
  rewrite Hdelete. cbn.
  split; [reflexivity|]. split; [apply lookup_delete_eq|].
  split; [|split; [reflexivity|]].
  - destruct s as [rts cs]. cbn in *. f_equal.
    rewrite delete_insert_eq. apply delete_id. exact Hfree.
  - rewrite <- !app_assoc. reflexivity.
Qed.

(** *** Delete *)

(** [Delete] never touches the [containers] map. *)
Lemma Delete_keeps_registry (id : string) (st : St) :
  service (snd (Delete id st)) = service st.
Proof.
  unfold Delete, getContainer, getRuntime, Lock, Unlock, emit, lookup_container, call.
  run. cbn.
  destruct (containers (service st) !! id) as [c|]; cbn; [|reflexivity].
  destruct (runtimes (service st) !! info_Runtime (Info c)) as [rt|]; cbn;
    [|reflexivity].
  destruct (rt_Delete rt c (backend st)); reflexivity.
Qed.

(** *** List *)

Lemma queried_app pre : forall w sts w1 k c st w2,
  queried pre w sts w1 ->
  State_ c w1 = (inl st, w2) ->
  queried (pre ++ [(k, c)]) w (sts ++ [(c, st)]) w2.
Proof.
  induction pre as [|[k0 c0] pre IH]; intros w sts w1 k c st w2 Hq Hs.
  - inversion Hq; subst. cbn. econstructor; [eassumption | constructor].
  - inversion Hq; subst. cbn. econstructor; [eassumption|]. eapply IH; eassumption.
Qed.

Lemma queried_containers iter : forall w sts w',
  queried iter w sts w' -> map fst sts = map snd iter.
Proof.
  induction iter as [|[k c] iter IH]; intros w sts w' H; inversion H; subst; cbn.
  - reflexivity.
  - f_equal. eapply IH; eassumption.
Qed.

(** The loop, started after the containers of [pre] have answered. *)
Lemma List_loop_spec rest : forall pre sts st0 st,
  queried pre (backend st0) sts (backend st) ->
  let '(res, st') := List_loop rest (map entry_of sts) st in
  service st' = service st /\
  match res with
  | inl cs =>
      exists all, queried (pre ++ rest) (backend st0) all (backend st') /\
                  cs = map entry_of all /\
                  events st' = (events st
                                ++ map (fun kc => EvState (info_ID (Info (snd kc)))) rest)%list
  | inr e =>
      exists done k c todo answered w1,
        (pre ++ rest = done ++ (k, c) :: todo)%list /\
        queried done (backend st0) answered w1 /\
        State_ c w1 = (inr e, backend st')
  end.
Proof.
  induction rest as [|[k c] rest IH]; intros pre sts st0 st Hq.
  - cbn. split; [reflexivity|]. exists sts. rewrite !app_nil_r. auto.
  - cbn [List_loop]. unfold call. run.
    destruct (State_ c (backend st)) as [[state|e] w1] eqn:Hs; cbn.
    + pose proof (queried_app _ _ _ _ k _ _ _ Hq Hs) as Hq'.
      specialize (IH (pre ++ [(k, c)])%list (sts ++ [(c, state)])%list st0
                     (mkSt (service st) w1
                           (events st ++ [EvState (info_ID (Info c))])%list) Hq').
      rewrite map_app in IH. cbn in IH.
      change (mkApiContainer (info_ID (Info c)) (st_Pid state)
                             (api_status_of (st_Status state)))
        with (entry_of (c, state)).
      destruct (List_loop rest _ _) as [res st'].
      destruct IH as [Hsvc IH]. split; [exact Hsvc|].
      destruct res as [cs|e].
      * destruct IH as (all & Hall & -> & Hev). exists all.
        rewrite <- app_assoc in Hall. split; [exact Hall|].
        split; [reflexivity|]. rewrite Hev, <- app_assoc. reflexivity.
      * destruct IH as (done & k' & c' & todo & answered & w2 & Heq & Hd & Hf).
        exists done, k', c', todo, answered, w2.
        rewrite <- app_assoc in Heq. auto.
    + split; [reflexivity|].
      exists pre, k, c, rest, sts, (backend st). auto.
Qed.

Lemma List_unfold (iter : list (string * Container)) (st : St) :
  List iter st =
  let '(res, st') :=
    List_loop iter nil (mkSt (service st) (backend st) (events st ++ [EvLock])%list) in
  (match res with
   | inr err => inr err
   | inl cs => inl (mkListResponse cs)
   end,
   mkSt (service st') (backend st') (events st' ++ [EvUnlock])%list).
Proof.
  unfold List, Lock, Unlock, emit. run.
  destruct (List_loop iter nil _) as [[cs|e] st']; reflexivity.
Qed.

(** Every registered container is among those that answered. *)
Lemma queried_registered (m : gmap string Container) iter w all w' :
  range_of m iter -> queried iter w all w' ->
  forall k c, m !! k = Some c -> exists st, (c, st) ∈ all.
Proof.
  intros Hrange Hall k c Hkc.
  pose proof (queried_containers _ _ _ _ Hall) as Hfst.
  assert ((k, c) ∈ iter) as Hin.
  { unfold range_of in Hrange. rewrite Hrange.
    apply elem_of_map_to_list. exact Hkc. }
  assert (c ∈ map fst all) as Hc.
  { rewrite Hfst. apply list_elem_of_fmap. exists (k, c). auto. }
  apply list_elem_of_fmap in Hc as ([c' st] & -> & Hin'). exists st. exact Hin'.
Qed.

(** C8.  [List] either returns a listing with one entry for every
    registered container, in the order of the iteration, made of the
    identifier, pid and status of the state it reported; or one of the
    registered containers failed to report its state, and [List] returns
    that error and no listing.  Either way the registry is unchanged. *)
Theorem List_all_or_nothing (iter : list (string * Container)) (s : Service)
    (w : W) (evs : list Event) :
  range_of (containers s) iter ->
  let '(res, st') := List iter (mkSt s w evs) in
  service st' = s /\
  match res with
  | inl resp =>
      exists all,
        queried iter w all (backend st') /\
        Containers resp = map entry_of all /\
        map fst all = map snd iter /\
        length (Containers resp) = size (containers s) /\
        (forall k c, containers s !! k = Some c -> exists st, (c, st) ∈ all)
  | inr e =>
      exists done k c todo answered w1,
        (iter = done ++ (k, c) :: todo)%list /\
        containers s !! k = Some c /\
        queried done w answered w1 /\
        State_ c w1 = (inr e, backend st')
  end.
Proof.
  intros Hrange. rewrite List_unfold. cbn [service backend events].
  pose proof (List_loop_spec iter nil nil (mkSt s w evs)
                (mkSt s w (evs ++ [EvLock])%list) (queried_nil w)) as H.
  cbn in H.
  destruct (List_loop iter nil _) as [res st']. destruct H as [Hsvc H].
  destruct res as [cs|e]; cbn.
  - split; [exact Hsvc|]. destruct H as (all & Hall & -> & _).
    exists all. pose proof (queried_containers _ _ _ _ Hall) as Hfst.
    split; [exact Hall|]. split; [reflexivity|]. split; [exact Hfst|]. split.
    + rewrite length_map. rewrite <- (length_map fst), Hfst, length_map.
      unfold range_of in Hrange. rewrite Hrange. apply length_map_to_list.
    + eapply queried_registered; eassumption.
  - split; [exact Hsvc|].
    destruct H as (done & k & c & todo & answered & w1 & Heq & Hd & Hf).
    cbn in Heq. exists done, k, c, todo, answered, w1.
    split; [exact Heq|]. split; [|auto].
    apply elem_of_map_to_list. unfold range_of in Hrange. rewrite <- Hrange, Heq.
    apply elem_of_app. right. apply list_elem_of_here.
Qed.

(** C10.  In a listing every registered container has an entry, which
    carries the identifier and pid the container reported and the API
    status of the reported status: CREATED, RUNNING, STOPPED, PAUSED for
    the four named statuses, and CREATED, the zero value of the
    enumeration, for any other status. *)
Theorem List_status_mapping (iter : list (string * Container)) (s : Service)
    (w : W) (evs : list Event) (resp : ListResponse) (st' : St) :
  range_of (containers s) iter ->
  List iter (mkSt s w evs) = (inl resp, st') ->
  Status_CREATED = 0 /\
  exists all,
    queried iter w all (backend st') /\
    (forall k c, containers s !! k = Some c -> exists st, (c, st) ∈ all) /\
    Forall2 (fun (cs : Container * State) (entry : api_Container) =>
               c_ID entry = info_ID (Info (fst cs)) /\
               c_Pid entry = st_Pid (snd cs) /\
               c_Status entry = match st_Status (snd cs) with
                                | CreatedStatus => Status_CREATED
                                | RunningStatus => Status_RUNNING
                                | StoppedStatus => Status_STOPPED
                                | PausedStatus => Status_PAUSED
                                | OtherStatus _ => Status_CREATED
                                end)
            all (Containers resp).
Proof.
  intros Hrange HL. split; [reflexivity|].
  rewrite List_unfold in HL. cbn [service backend events] in HL.
  pose proof (List_loop_spec iter nil nil (mkSt s w evs)
                (mkSt s w (evs ++ [EvLock])%list) (queried_nil w)) as H.
  cbn in H.
  destruct (List_loop iter nil _) as [[cs|e] st1]; [|discriminate].
  destruct H as (_ & all & Hall & -> & _).
  inversion HL; subst; clear HL. cbn.
  exists all. split; [exact Hall|].
  split; [eapply queried_registered; eassumption|].
  clear. induction all as [|[c st] all IH]; cbn; constructor.
  - cbn. split; [reflexivity|]. split; [reflexivity|].
    destruct (st_Status st); reflexivity.
  - exact IH.
Qed.

(** *** More on Create *)

(** X9.  What [Create] does to the registry.  A [Create] that fails, on
    whatever path, leaves the registry exactly as it was.  A [Create] that
    succeeds answers with the identifier of the request; that identifier
    was free and its runtime known, and the registry gained one entry,
    under that identifier, and is otherwise unchanged. *)
Theorem Create_registry_effect (r : CreateRequest) (st : St) :
  let '(res, st') := Create r st in
  match res with
  | inr _ => service st' = service st
  | inl resp =>
      resp_ID resp = r_ID r /\
      is_Some (runtimes (service st) !! r_Runtime r) /\
      containers (service st) !! r_ID r = None /\
      runtimes (service st') = runtimes (service st) /\
      exists c, containers (service st')
                = <[r_ID r := c]> (containers (service st))
  end.
Proof.
  unfold Create, getRuntime, Lock, Unlock, emit, lookup_container,
    insert_container, remove_container, call. run.
  destruct (runtimes (service st) !! r_Runtime r) as [runtime|] eqn:Ert; cbn;
    [|reflexivity].
  destruct (containers (service st) !! r_ID r) as [c0|] eqn:Ec; cbn; [reflexivity|].
  destruct (rt_Create runtime (r_ID r) (create_opts r) (backend st))
    as [[c|e] w1]; cbn; [|reflexivity].
  destruct (State_ c w1) as [[state|e] w2]; cbn.
  - split; [reflexivity|]. split; [eauto|]. split; [reflexivity|].
    split; [reflexivity|]. exists c. reflexivity.
  - destruct (rt_Delete runtime c w2) as [derr w3]; cbn.
    destruct (service st) as [rts cs]. cbn in *. f_equal.
    rewrite delete_insert_eq. apply delete_id. exact Ec.
Qed.

(** X10.  The order of the checks of [Create].  An unknown runtime is
    reported first, without taking the mutex and without any effect, also
    when the identifier is taken.  With a known runtime a taken identifier
    is refused with [ErrContainerExists] and the runtime is not called.
    Otherwise the runtime's [Create] is called, and its error, if any, is
    returned as it is. *)
Theorem Create_checks (r : CreateRequest) (st : St) :
  let '(res, st') := Create r st in
  match runtimes (service st) !! r_Runtime r with
  | None => res = inr ErrUnknownRuntime /\ st' = st
  | Some runtime =>
      match containers (service st) !! r_ID r with
      | Some _ =>
          res = inr ErrContainerExists /\ backend st' = backend st /\
          events st' = (events st ++ [EvLock; EvLookup (r_ID r); EvUnlock])%list
      | None =>
          match rt_Create runtime (r_ID r) (create_opts r) (backend st) with
          | (inr e, w1) =>
              res = inr e /\ backend st' = w1 /\
              events st' = (events st ++ [EvLock; EvLookup (r_ID r);
                                          EvRuntimeCreate (r_ID r); EvUnlock])%list
          | (inl c, w1) =>
              EvRuntimeCreate (r_ID r) ∈ events st' /\
              match res with
              | inl resp => exists state w2, State_ c w1 = (inl state, w2) /\
                                             resp_Pid resp = st_Pid state /\
                                             backend st' = w2
              | inr e => exists w2, State_ c w1 = (inr e, w2)
              end
          end
      end
  end.
Proof.
  unfold Create, getRuntime, Lock, Unlock, emit, lookup_container,
    insert_container, remove_container, call. run.
  destruct (runtimes (service st) !! r_Runtime r) as [runtime|] eqn:Ert; cbn.
  2: { split; reflexivity. }
  destruct (containers (service st) !! r_ID r) as [c0|] eqn:Ec; cbn.
  { split; [reflexivity|]. split; [reflexivity|].
    rewrite <- !app_assoc. reflexivity. }
  destruct (rt_Create runtime (r_ID r) (create_opts r) (backend st))
    as [[c|e] w1]; cbn.
  2: { split; [reflexivity|]. split; [reflexivity|].
       rewrite <- !app_assoc. reflexivity. }
  destruct (State_ c w1) as [[state|e] w2]; cbn.
  - split; [|eauto]. rewrite <- !app_assoc. apply elem_of_app. right. listed.
  - destruct (rt_Delete runtime c w2) as [derr w3]; cbn.
    split; [|eauto]. rewrite <- !app_assoc. apply elem_of_app. right. listed.
Qed.

(** A successful [Create] has stored a container under the identifier of
    the request. *)
Lemma Create_inserts (r : CreateRequest) (st : St) :
  let '(res, st') := Create r st in
  match res with
  | inl _ => exists c, containers (service st')
                       = <[r_ID r := c]> (containers (service st))
  | inr _ => True
  end.
Proof.
  unfold Create, getRuntime, Lock, Unlock, emit, lookup_container,
    insert_container, remove_container, call. run.
  destruct (runtimes (service st) !! r_Runtime r) as [runtime|]; cbn; [|exact I].
  destruct (containers (service st) !! r_ID r) as [c0|]; cbn; [exact I|].
  destruct (rt_Create runtime (r_ID r) (create_opts r) (backend st))
    as [[c|e] w1]; cbn; [|exact I].
  destruct (State_ c w1) as [[state|e] w2]; cbn.
  - exists c. reflexivity.
  - destruct (rt_Delete runtime c w2) as [derr w3]; exact I.
Qed.

(** X11.  One container per identifier.  After a successful
    [Create], a second [Create] for the same identifier is refused (with
    [ErrContainerExists], or [ErrUnknownRuntime] when it names an unknown
    runtime) and changes neither the registry nor the backend: the runtime
    is not asked to create a second container. *)
Theorem Create_twice (r r2 : CreateRequest) (st st' : St) (resp : CreateResponse) :
  Create r st = (inl resp, st') ->
  r_ID r2 = r_ID r ->
  let '(res2, st2) := Create r2 st' in
  (res2 = inr ErrContainerExists \/ res2 = inr ErrUnknownRuntime) /\
  service st2 = service st' /\ backend st2 = backend st' /\
  (forall i, EvRuntimeCreate i ∈ events st2 -> EvRuntimeCreate i ∈ events st').
Proof.
  intros H Hid.
  assert (is_Some (containers (service st') !! r_ID r2)) as [c Hc].
  { pose proof (Create_inserts r st) as HI. rewrite H in HI.
    destruct HI as (c & ->). rewrite Hid, lookup_insert_eq. eauto. }
  clear H.
  unfold Create, getRuntime, Lock, Unlock, emit, lookup_container,
    insert_container, remove_container, call. run.
  destruct (runtimes (service st') !! r_Runtime r2) as [runtime|]; cbn.
  - rewrite Hc. cbn. split; [left; reflexivity|]. split; [reflexivity|].
    split; [reflexivity|]. intros i Hi. rewrite <- !app_assoc in Hi.
    apply elem_of_app in Hi as [Hi|Hi]; [exact Hi|]. exfalso. not_listed Hi.
  - split; [right; reflexivity|]. auto.
Qed.

(** *** Start and Delete *)

(** X12.  [Start] looks the container up under the mutex and calls its
    [Start] after the mutex is released; it returns what the container
    answers.  For an unknown identifier it answers
    [ErrContainerNotExist] and the backend is not touched.  The registry
    is never changed. *)
Theorem Start_spec (id : string) (st : St) :
  let '(err, st') := Start id st in
  service st' = service st /\
  match containers (service st) !! id with
  | None =>
      err = Some ErrContainerNotExist /\ backend st' = backend st /\
      events st' = (events st ++ [EvLock; EvLookup id; EvUnlock])%list
  | Some c =>
      (err, backend st') = Start_ c (backend st) /\
      events st' = (events st ++ [EvLock; EvLookup id; EvUnlock; EvStart id])%list /\
      outside_lock false [EvLock; EvLookup id; EvUnlock; EvStart id] = [EvStart id]
  end.
Proof.
  unfold Start, getContainer, Lock, Unlock, emit, lookup_container, call. run. cbn.
  destruct (containers (service st) !! id) as [c|]; cbn.
  - destruct (Start_ c (backend st)) as [err w1]. cbn.
    split; [reflexivity|]. split; [reflexivity|].
    split; [rewrite <- !app_assoc; reflexivity | reflexivity].
  - split; [reflexivity|]. split; [reflexivity|]. split; [reflexivity|].
    rewrite <- !app_assoc. reflexivity.
Qed.

(** X13.  [Delete] answers [ErrContainerNotExist] for an unknown
    identifier, and [ErrUnknownRuntime] when the runtime the container
    names in its [Info] is not registered; in both cases the backend is
    not touched.  Otherwise it calls the [Delete] of that runtime (the one
    the container names, whatever runtime created it) after the mutex is
    released, and returns what it answers. *)
Theorem Delete_spec (id : string) (st : St) :
  let '(err, st') := Delete id st in
  match containers (service st) !! id with
  | None =>
      err = Some ErrContainerNotExist /\ backend st' = backend st /\
      events st' = (events st ++ [EvLock; EvLookup id; EvUnlock])%list
  | Some c =>
      match runtimes (service st) !! info_Runtime (Info c) with
      | None =>
          err = Some ErrUnknownRuntime /\ backend st' = backend st /\
          events st' = (events st ++ [EvLock; EvLookup id; EvUnlock])%list
      | Some runtime =>
          (err, backend st') = rt_Delete runtime c (backend st) /\
          events st' = (events st ++ [EvLock; EvLookup id; EvUnlock;
                                      EvRuntimeDelete id])%list /\
          under_lock false [EvLock; EvLookup id; EvUnlock; EvRuntimeDelete id]
          = [EvLookup id]
      end
  end.
Proof.
  unfold Delete, getContainer, getRuntime, Lock, Unlock, emit, lookup_container, call.
  run. cbn.
  destruct (containers (service st) !! id) as [c|]; cbn.
  - destruct (runtimes (service st) !! info_Runtime (Info c)) as [rt|]; cbn.
    + destruct (rt_Delete rt c (backend st)) as [err w1]. cbn.
      split; [reflexivity|].
      split; [rewrite <- !app_assoc; reflexivity | reflexivity].
    + split; [reflexivity|]. split; [reflexivity|].
      rewrite <- !app_assoc. reflexivity.
  - split; [reflexivity|]. split; [reflexivity|].
    rewrite <- !app_assoc. reflexivity.
Qed.

(** *** The mutex *)

Lemma state_queries_app a b :
  state_queries (a ++ b) = (state_queries a ++ state_queries b)%list.
Proof. unfold state_queries. apply map_app. Qed.

(** The events of the loop of [List]: the state queries of the first [n]
    containers, all of them unless one failed. *)
Lemma List_loop_events rest : forall acc st,
  let '(res, st') := List_loop rest acc st in
  exists n : nat,
    (n <= length rest)%nat /\
    events st' = (events st ++ state_queries (take n rest))%list /\
    match res with
    | inl _ => n = length rest
    | inr _ => (0 < n)%nat
    end.
Proof.
  induction rest as [|[k c] rest IH]; intros acc st.
  - cbn. exists O. rewrite app_nil_r. auto.
  - cbn [List_loop]. unfold call. run.
    destruct (State_ c (backend st)) as [[state|e] w1]; cbn.
    + match goal with
      | |- context [List_loop rest ?a ?s] => specialize (IH a s)
      end.
      destruct (List_loop rest _ _) as [res st'].
      destruct IH as (n & Hn & Hev & Hres). exists (S n). cbn in *.
      split; [lia|]. split; [rewrite Hev, <- app_assoc; reflexivity|].
      destruct res; lia.
    + exists 1%nat. cbn. split; [lia|]. split; [reflexivity | lia].
Qed.

Lemma under_lock_queries l tail :
  under_lock true (state_queries l ++ tail) = (state_queries l ++ under_lock true tail)%list.
Proof.
  unfold state_queries.
  induction l as [|a l IH]; cbn; [reflexivity | rewrite IH; reflexivity].
Qed.

Lemma outside_lock_queries l tail :
  outside_lock true (state_queries l ++ tail) = outside_lock true tail.
Proof.
  unfold state_queries.
  induction l as [|a l IH]; cbn; [reflexivity | exact IH].
Qed.

Lemma mutex_after_queries held l tail :
  mutex_after held (state_queries l ++ tail) = mutex_after held tail.
Proof.
  unfold state_queries.
  induction l as [|a l IH]; cbn; [reflexivity | exact IH].
Qed.

(** The events of [List], by the number of containers it queried. *)
Lemma List_events (iter : list (string * Container)) (st : St) :
  let '(res, st') := List iter st in
  exists n : nat,
    (n <= length iter)%nat /\
    events st' = (events st ++ EvLock :: state_queries (take n iter) ++ [EvUnlock])%list /\
    match res with
    | inl _ => n = length iter
    | inr _ => (0 < n)%nat
    end.
Proof.
  rewrite List_unfold.
  pose proof (List_loop_events iter nil
                (mkSt (service st) (backend st) (events st ++ [EvLock])%list)) as H.
  destruct (List_loop iter nil _) as [res st']. cbn in *.
  destruct H as (n & Hn & Hev & Hres). exists n.
  split; [exact Hn|]. split.
  - rewrite Hev, <- !app_assoc. reflexivity.
  - destruct res; exact Hres.
Qed.

(** The loop of [List], with its events: all the state queries when
    every container answers; otherwise the queries up to and including
    the first one that fails, which is the last thing the loop does. *)
Lemma List_loop_trace rest : forall acc st,
  let '(res, st') := List_loop rest acc st in
  match res with
  | inl _ =>
      (exists answered, queried rest (backend st) answered (backend st')) /\
      events st' = (events st ++ state_queries rest)%list
  | inr e =>
      exists done k c todo answered w1,
        (rest = done ++ (k, c) :: todo)%list /\
        queried done (backend st) answered w1 /\
        State_ c w1 = (inr e, backend st') /\
        events st' = (events st ++ state_queries (done ++ [(k, c)]))%list
  end.
Proof.
  induction rest as [|[k c] rest IH]; intros acc st.
  - cbn. split; [exists nil; constructor | rewrite app_nil_r; reflexivity].
  - cbn [List_loop]. unfold call. run.
    destruct (State_ c (backend st)) as [[state|e] w1] eqn:Hs; cbn.
    + match goal with
      | |- context [List_loop rest ?a ?s] => specialize (IH a s)
      end.
      destruct (List_loop rest _ _) as [[cs|e] st']; cbn in IH.
      * destruct IH as [[answered Hq] Hev]. split.
        -- exists ((c, state) :: answered). econstructor; eassumption.
        -- rewrite Hev, <- app_assoc. reflexivity.
      * destruct IH as (done & k' & c' & todo & answered & w2 & Heq & Hq & Hf & Hev).
        exists ((k, c) :: done), k', c', todo, ((c, state) :: answered), w2.
        split; [rewrite Heq; reflexivity|].
        split; [econstructor; eassumption|]. split; [exact Hf|].
        rewrite Hev, <- app_assoc. reflexivity.
    + exists nil, k, c, rest, nil, (backend st).
      split; [reflexivity|]. split; [constructor|]. split; [exact Hs | reflexivity].
Qed.

(** X14.  [List] takes the mutex before the first state query and
    releases it after the last one, on both returns: every state query is
    made with the mutex held.  The containers are queried in the order of
    the iteration.  When [List] succeeds every container was queried and
    answered.  When it fails, the containers before the first one whose
    query fails were queried and answered, that one was queried, and no
    container after it was: its query is the last event before the
    unlock. *)
Theorem List_lock_scope (iter : list (string * Container)) (st : St) :
  let '(res, st') := List iter st in
  exists new,
    events st' = (events st ++ new)%list /\
    outside_lock false new = nil /\
    match res with
    | inl _ =>
        (exists answered, queried iter (backend st) answered (backend st')) /\
        new = (EvLock :: state_queries iter ++ [EvUnlock])%list /\
        under_lock false new = state_queries iter
    | inr e =>
        exists done k c todo answered w1,
          (iter = done ++ (k, c) :: todo)%list /\
          queried done (backend st) answered w1 /\
          State_ c w1 = (inr e, backend st') /\
          new = (EvLock :: state_queries (done ++ [(k, c)]) ++ [EvUnlock])%list /\
          under_lock false new = state_queries (done ++ [(k, c)])
    end.
Proof.
  rewrite List_unfold.
  pose proof (List_loop_trace iter nil
                (mkSt (service st) (backend st) (events st ++ [EvLock])%list)) as H.
  destruct (List_loop iter nil _) as [[cs|e] st1]; cbn in H |- *.
  - destruct H as [Hq Hev].
    exists (EvLock :: state_queries iter ++ [EvUnlock])%list.
    split; [rewrite Hev, <- !app_assoc; reflexivity|].
    split; [cbn; rewrite outside_lock_queries; reflexivity|].
    split; [exact Hq|]. split; [reflexivity|].
    cbn. rewrite under_lock_queries. cbn. apply app_nil_r.
  - destruct H as (done & k & c & todo & answered & w1 & Heq & Hq & Hf & Hev).
    exists (EvLock :: state_queries (done ++ [(k, c)]) ++ [EvUnlock])%list.
    split; [rewrite Hev, <- !app_assoc; reflexivity|].
    split; [cbn; rewrite outside_lock_queries; reflexivity|].
    exists done, k, c, todo, answered, w1.
    split; [exact Heq|]. split; [exact Hq|]. split; [exact Hf|].
    split; [reflexivity|].
    cbn. rewrite under_lock_queries. cbn. apply app_nil_r.
Qed.

(** X15.  No request returns with the mutex held, locks it twice or
    unlocks it while it is not held: [Create] on each of its five paths,
    [Start], [Delete], [List] on both returns, and [getContainer]. *)
Theorem mutex_discipline (r : CreateRequest) (id : string)
    (iter : list (string * Container)) :
  releases_mutex (Create r) /\
  releases_mutex (Start id) /\
  releases_mutex (Delete id) /\
  releases_mutex (List iter) /\
  releases_mutex (getContainer id).
Proof.
  unfold releases_mutex. repeat split; intros st.
  - unfold Create, getRuntime, Lock, Unlock, emit, lookup_container,
      insert_container, remove_container, call. run.
    destruct (runtimes (service st) !! r_Runtime r) as [runtime|]; cbn.
    2: { exists nil. rewrite app_nil_r. auto. }
    destruct (containers (service st) !! r_ID r) as [c0|]; cbn.
    { eexists. split; [rewrite <- !app_assoc; reflexivity | reflexivity]. }
    destruct (rt_Create runtime (r_ID r) (create_opts r) (backend st))
      as [[c|e] w1]; cbn.
    2: { eexists. split; [rewrite <- !app_assoc; reflexivity | reflexivity]. }
    destruct (State_ c w1) as [[state|e] w2]; cbn.
    + eexists. split; [rewrite <- !app_assoc; reflexivity | reflexivity].
    + destruct (rt_Delete runtime c w2) as [derr w3]; cbn.
      eexists. split; [rewrite <- !app_assoc; reflexivity | reflexivity].
  - unfold Start, getContainer, Lock, Unlock, emit, lookup_container, call. run. cbn.
    destruct (containers (service st) !! id) as [c|]; cbn.
    + destruct (Start_ c (backend st)) as [err w1]. cbn.
      eexists. split; [rewrite <- !app_assoc; reflexivity | reflexivity].
    + eexists. split; [rewrite <- !app_assoc; reflexivity | reflexivity].
  - unfold Delete, getContainer, getRuntime, Lock, Unlock, emit, lookup_container,
      call. run. cbn.
    destruct (containers (service st) !! id) as [c|]; cbn.
    + destruct (runtimes (service st) !! info_Runtime (Info c)) as [rt|]; cbn.
      * destruct (rt_Delete rt c (backend st)) as [err w1]. cbn.
        eexists. split; [rewrite <- !app_assoc; reflexivity | reflexivity].
      * eexists. split; [rewrite <- !app_assoc; reflexivity | reflexivity].
    + eexists. split; [rewrite <- !app_assoc; reflexivity | reflexivity].
  - pose proof (List_events iter st) as H.
    destruct (List iter st) as [res st'].
    destruct H as (n & _ & Hev & _). cbn.
    eexists. split; [exact Hev|]. cbn. rewrite mutex_after_queries. reflexivity.
  - unfold getContainer, Lock, Unlock, emit, lookup_container. run. cbn.
    destruct (containers (service st) !! id) as [c|]; cbn;
      (eexists; split; [rewrite <- !app_assoc; reflexivity | reflexivity]).
Qed.

(** *** New and Register *)

Lemma register_all_app m a b :
  register_all m (a ++ b) = register_all (register_all m a) b.
Proof. unfold register_all. apply fold_left_app. Qed.

(** Every container of [cs] has its identifier registered afterwards, to
    a container with that identifier. *)
Lemma register_all_registered cs : forall m c,
  c ∈ cs ->
  exists c', register_all m cs !! info_ID (Info c) = Some c' /\
             info_ID (Info c') = info_ID (Info c).
Proof.
  induction cs as [|c0 cs IH] using rev_ind; intros m c Hin.
  - inversion Hin.
  - rewrite register_all_app. cbn.
    destruct (decide (info_ID (Info c0) = info_ID (Info c))) as [E|E].
    + exists c0. rewrite E, lookup_insert_eq. auto.
    + rewrite lookup_insert_ne by exact E.
      apply elem_of_app in Hin as [Hin|Hin]; [eauto|].
      apply list_elem_of_singleton in Hin. subst. contradiction.
Qed.

(** Identifiers of no container of [cs] keep their entry. *)
Lemma register_all_other cs : forall m k,
  (forall c, c ∈ cs -> info_ID (Info c) <> k) ->
  register_all m cs !! k = m !! k.
Proof.
  induction cs as [|c0 cs IH]; intros m k H; [reflexivity|].
  change (register_all m (c0 :: cs))
    with (register_all (<[info_ID (Info c0) := c0]> m) cs).
  rewrite IH.
  - apply lookup_insert_ne. apply H. apply list_elem_of_here.
  - intros c Hc. apply H. apply list_elem_of_further. exact Hc.
Qed.

Lemma Register_containers_run cs : forall st,
  Register_containers cs st =
  (tt, mkSt (mkService (runtimes (service st))
                       (register_all (containers (service st)) cs))
            (backend st)
            (events st ++ map (fun c => EvInsert (info_ID (Info c))) cs)%list).
Proof.
  induction cs as [|c cs IH]; intros st.
  - cbn. rewrite app_nil_r. destruct st as [[rts m] w evs]. reflexivity.
  - cbn [Register_containers]. unfold insert_container. run.
    rewrite IH. cbn. rewrite <- app_assoc. reflexivity.
Qed.

(** [Register], run: the containers stored are those of the runtimes that
    answered, in order. *)
Lemma Register_run (iter : list (string * Runtime)) : forall st,
  let '(err, st') := Register iter st in
  runtimes (service st') = runtimes (service st) /\
  (exists new, events st' = (events st ++ new)%list /\
               (EvLock ∉ new) /\ (EvUnlock ∉ new)) /\
  exists cs,
    containers (service st') = register_all (containers (service st)) cs /\
    match err with
    | None => enumerated iter (backend st) cs (backend st')
    | Some e =>
        exists done name r todo w1,
          (iter = done ++ (name, r) :: todo)%list /\
          enumerated done (backend st) cs w1 /\
          rt_Containers r w1 = (inr e, backend st')
    end.
Proof.
  induction iter as [|[name r] iter IH]; intros st.
  - cbn. split; [reflexivity|]. split.
    + exists nil. rewrite app_nil_r. split; [reflexivity|].
      split; apply not_elem_of_nil.
    + exists nil. split; [reflexivity | constructor].
  - cbn [Register]. unfold call. run.
    destruct (rt_Containers r (backend st)) as [[cs|e] w1] eqn:Hr; cbn.
    + rewrite Register_containers_run. cbn.
      match goal with
      | |- context [Register iter ?s] => specialize (IH s)
      end.
      destruct (Register iter _) as [err st']. cbn in IH.
      destruct IH as (Hrt & (new & Hev & HnL & HnU) & css & Hcs & Hres).
      split; [exact Hrt|]. split.
      * exists (EvRuntimeContainers name
                :: map (fun c => EvInsert (info_ID (Info c))) cs ++ new)%list.
        split; [rewrite Hev, <- !app_assoc; reflexivity|].
        split; intros Hin;
          (apply elem_of_cons in Hin as [Hin|Hin]; [discriminate|];
           apply elem_of_app in Hin as [Hin|Hin]; [|contradiction];
           apply list_elem_of_fmap in Hin as (c & Hc & _); discriminate).
      * exists (cs ++ css)%list. split; [rewrite Hcs, register_all_app; reflexivity|].
        destruct err as [e|].
        -- destruct Hres as (done & name' & r' & todo & w2 & Heq & Hdone & Hfail).
           exists ((name, r) :: done), name', r', todo, w2.
           split; [rewrite Heq; reflexivity|]. split; [|exact Hfail].
           econstructor; eassumption.
        -- econstructor; eassumption.
    + split; [reflexivity|]. split.
      * exists [EvRuntimeContainers name]. split; [reflexivity|].
        split; intros Hin;
          (apply elem_of_cons in Hin as [Hin|Hin]; [discriminate|];
           apply elem_of_nil in Hin; exact Hin).
      * exists nil. split; [reflexivity|].
        exists nil, name, r, iter, (backend st).
        split; [reflexivity|]. split; [constructor | exact Hr].
Qed.

(** X16.  Start-up.  [Register] asks the runtimes for their containers in
    turn and stores every container under its own identifier, a later one
    replacing an earlier one with the same identifier; entries under other
    identifiers are kept, and the mutex is not used.  When a runtime fails
    to answer, [Register] returns its error at once: the containers of
    the runtimes asked before it stay registered and the remaining
    runtimes are not asked. *)
Theorem Register_spec (iter : list (string * Runtime)) (st : St) :
  let '(err, st') := Register iter st in
  runtimes (service st') = runtimes (service st) /\
  (exists new, events st' = (events st ++ new)%list /\
               (EvLock ∉ new) /\ (EvUnlock ∉ new)) /\
  exists cs,
    containers (service st') = register_all (containers (service st)) cs /\
    (forall c, c ∈ cs ->
       exists c', containers (service st') !! info_ID (Info c) = Some c' /\
                  info_ID (Info c') = info_ID (Info c)) /\
    (forall k, (forall c, c ∈ cs -> info_ID (Info c) <> k) ->
       containers (service st') !! k = containers (service st) !! k) /\
    match err with
    | None => enumerated iter (backend st) cs (backend st')
    | Some e =>
        exists done name r todo w1,
          (iter = done ++ (name, r) :: todo)%list /\
          enumerated done (backend st) cs w1 /\
          rt_Containers r w1 = (inr e, backend st')
    end.
Proof.
  pose proof (Register_run iter st) as H.
  destruct (Register iter st) as [err st'].
  destruct H as (Hrt & Hev & cs & Hcs & Hres).
  split; [exact Hrt|]. split; [exact Hev|].
  exists cs. split; [exact Hcs|]. rewrite Hcs.
  split; [intros c Hc; apply register_all_registered; exact Hc|].
  split; [intros k Hk; apply register_all_other; exact Hk|].
  exact Hres.
Qed.

(** X17.  A new service has no containers: [List] returns an empty
    listing without asking anything, and [Start] and [Delete] answer
    [ErrContainerNotExist] for every identifier without touching the
    backend. *)
Theorem New_is_empty (rts : gmap string Runtime) (w : W) (evs : list Event)
    (iter : list (string * Container)) (id : string) :
  range_of (containers (New rts)) iter ->
  List iter (mkSt (New rts) w evs)
  = (inl (mkListResponse nil), mkSt (New rts) w (evs ++ [EvLock; EvUnlock])%list) /\
  Start id (mkSt (New rts) w evs)
  = (Some ErrContainerNotExist,
     mkSt (New rts) w (evs ++ [EvLock; EvLookup id; EvUnlock])%list) /\
  Delete id (mkSt (New rts) w evs)
  = (Some ErrContainerNotExist,
     mkSt (New rts) w (evs ++ [EvLock; EvLookup id; EvUnlock])%list).
Proof.
  intros Hrange. unfold range_of, New in *. cbn in Hrange.
  rewrite map_to_list_empty in Hrange. apply Permutation_nil_r in Hrange. subst iter.
  unfold List, Start, Delete, getContainer, Lock, Unlock, emit, lookup_container.
  run. cbn. rewrite lookup_empty. cbn. rewrite <- !app_assoc.
  repeat split.
Qed.

End Service.

(** *** Concrete runs

    A runtime named "linux" whose state is the list of the containers it
    was asked to delete.  Its containers report pid 1234, and [Created]
    until they are deleted, [Stopped] afterwards. *)

Definition linux_container (id : string) : @Container (list string) :=
  mkContainer (mkContainerInfo id "linux")
              (fun w => (None, w))
              (fun w => (inl (mkState (if bool_decide (id ∈ w) then StoppedStatus
                                       else CreatedStatus) 1234), w)).

Definition linux : @Runtime (list string) :=
  mkRuntime (fun id _ w => (inl (linux_container id), w))
            (fun c w => (None, info_ID (Info c) :: w))
            (fun w => (inl nil, w)).

(** A runtime whose containers cannot report their state, and whose
    [Delete] fails too. *)
Definition mute_container (id : string) : @Container (list string) :=
  mkContainer (mkContainerInfo id "broken")
              (fun w => (None, w))
              (fun w => (inr (BackendError "no state"), w)).

Definition broken : @Runtime (list string) :=
  mkRuntime (fun id _ w => (inl (mute_container id), w))
            (fun c w => (Some (BackendError "delete failed"), info_ID (Info c) :: w))
            (fun w => (inl nil, w)).

(** A container that reports a status outside the four named ones. *)
Definition odd_container (id : string) : @Container (list string) :=
  mkContainer (mkContainerInfo id "linux")
              (fun w => (None, w))
              (fun w => (inl (mkState (OtherStatus 7) 4321), w)).

Definition two_runtimes : gmap string (@Runtime (list string)) :=
  <["broken" := broken]> {["linux" := linux]}.

Definition request (id runtime : string) : CreateRequest :=
  mkCreateRequest id "{}" nil runtime "/dev/null" "/dev/null" "/dev/null" false.

Definition empty_service : @St (list string) :=
  mkSt (mkService two_runtimes ∅) nil nil.

Definition service_with_c1 : @St (list string) :=
  mkSt (mkService two_runtimes {["c1" := linux_container "c1"]}) nil nil.

(** The counterexample of C1: in [Create("c1")] on an empty registry the
    runtime's [Create] is called between [Lock] and [Unlock]. *)
Lemma Create_calls_runtime_under_lock :
  events (snd (Create (request "c1" "linux") empty_service))
  = [EvLock; EvLookup "c1"; EvRuntimeCreate "c1"; EvInsert "c1"; EvUnlock;
     EvState "c1"] /\
  List.filter is_runtime_call
    (under_lock false (events (snd (Create (request "c1" "linux") empty_service))))
  = [EvRuntimeCreate "c1"].
Proof. split; vm_compute; reflexivity. Qed.

(** The witness of C3: the runtime "broken", whose [Delete] fails. *)
Lemma Create_state_failure_witness :
  (two_runtimes !! "broken" = Some broken /\
   (∅ : gmap string (@Container (list string))) !! "c2" = None /\
   rt_Create broken "c2" (create_opts (request "c2" "broken")) nil
   = (inl (mute_container "c2"), nil) /\
   State_ (mute_container "c2") nil = (inr (BackendError "no state"), nil) /\
   rt_Delete broken (mute_container "c2") nil
   = (Some (BackendError "delete failed"), ["c2"])) /\
  let '(res, st') := Create (request "c2" "broken") empty_service in
  res = inr (BackendError "no state") /\
  containers (service st') !! "c2" = None /\
  service st' = mkService two_runtimes ∅ /\
  backend st' = ["c2"] /\
  events st' = (nil ++ [EvLock; EvLookup "c2"; EvRuntimeCreate "c2";
                        EvInsert "c2"; EvUnlock; EvState "c2";
                        EvLock; EvRemove "c2"; EvRuntimeDelete "c2";
                        EvUnlock])%list.
Proof.
  split; [repeat split|].
  exact (Create_state_failure (request "c2" "broken")
           (mkService two_runtimes ∅) nil nil broken (mute_container "c2")
           nil nil ["c2"] (BackendError "no state")
           (Some (BackendError "delete failed"))
           eq_refl eq_refl eq_refl eq_refl eq_refl).
Defined.

(** C2.  [Create("c1")] on an empty registry, then [List], then
    [Delete("c1")], which the runtime answers with success.  The entry of
    c1 is still in the map afterwards: the next [List] includes c1, and a
    new [Create("c1")] is refused as a duplicate. *)
Theorem Delete_leaves_entry_listed :
  let '(created, st1) := Create (request "c1" "linux") empty_service in
  let '(listed, st2) := List [("c1", linux_container "c1")] st1 in
  let '(deleted, st3) := Delete "c1" st2 in
  let '(listed', st4) := List [("c1", linux_container "c1")] st3 in
  created = inl (mkCreateResponse "c1" 1234) /\
  listed = inl (mkListResponse [mkApiContainer "c1" 1234 Status_CREATED]) /\
  deleted = None /\
  backend st3 = ["c1"] /\
  containers (service st3) = {["c1" := linux_container "c1"]} /\
  range_of (containers (service st3)) [("c1", linux_container "c1")] /\
  listed' = inl (mkListResponse [mkApiContainer "c1" 1234 Status_STOPPED]) /\
  fst (Create (request "c1" "linux") st3) = inr ErrContainerExists.
Proof.
  vm_compute. repeat split. apply Permutation_refl.
Qed.

(** The witness of C8: a registry of one container, which answers. *)
Lemma List_all_or_nothing_witness :
  range_of {["c1" := linux_container "c1"]} [("c1", linux_container "c1")] /\
  let '(res, st') := List [("c1", linux_container "c1")] service_with_c1 in
  service st' = mkService two_runtimes {["c1" := linux_container "c1"]} /\
  match res with
  | inl resp =>
      exists all,
        queried [("c1", linux_container "c1")] nil all (backend st') /\
        Containers resp = map entry_of all /\
        map fst all = map snd [("c1", linux_container "c1")] /\
        length (Containers resp)
        = size ({["c1" := linux_container "c1"]} : gmap string Container) /\
        (forall k c,
            ({["c1" := linux_container "c1"]} : gmap string Container) !! k = Some c ->
            exists st, (c, st) ∈ all)
  | inr e =>
      exists done k c todo answered w1,
        ([("c1", linux_container "c1")] = done ++ (k, c) :: todo)%list /\
        ({["c1" := linux_container "c1"]} : gmap string Container) !! k = Some c /\
        queried done nil answered w1 /\
        State_ c w1 = (inr e, backend st')
  end.
Proof.
  assert (range_of {["c1" := linux_container "c1"]} [("c1", linux_container "c1")])
    as Hrange.
  { unfold range_of. rewrite map_to_list_singleton. reflexivity. }
  split; [exact Hrange|].
  exact (List_all_or_nothing [("c1", linux_container "c1")]
           (mkService two_runtimes {["c1" := linux_container "c1"]})
           nil nil Hrange).
Defined.

Definition service_with_c9 : @St (list string) :=
  mkSt (mkService two_runtimes {["c9" := odd_container "c9"]}) nil nil.

(** The witness of C10: a container that reports status 7 is listed as
    CREATED. *)
Lemma List_status_mapping_witness :
  (range_of {["c9" := odd_container "c9"]} [("c9", odd_container "c9")] /\
   List [("c9", odd_container "c9")] service_with_c9
   = (inl (mkListResponse [mkApiContainer "c9" 4321 Status_CREATED]),
      mkSt (mkService two_runtimes {["c9" := odd_container "c9"]}) nil
           [EvLock; EvState "c9"; EvUnlock])) /\
  Status_CREATED = 0 /\
  exists all,
    queried [("c9", odd_container "c9")] nil all nil /\
    (forall k c,
        ({["c9" := odd_container "c9"]} : gmap string Container) !! k = Some c ->
        exists st, (c, st) ∈ all) /\
    Forall2 (fun (cs : Container * State) (entry : api_Container) =>
               c_ID entry = info_ID (Info (fst cs)) /\
               c_Pid entry = st_Pid (snd cs) /\
               c_Status entry = match st_Status (snd cs) with
                                | CreatedStatus => Status_CREATED
                                | RunningStatus => Status_RUNNING
                                | StoppedStatus => Status_STOPPED
                                | PausedStatus => Status_PAUSED
                                | OtherStatus _ => Status_CREATED
                                end)
            all [mkApiContainer "c9" 4321 Status_CREATED].
Proof.
  assert (range_of {["c9" := odd_container "c9"]} [("c9", odd_container "c9")])
    as Hrange.
  { unfold range_of. rewrite map_to_list_singleton. reflexivity. }
  split; [split; [exact Hrange | reflexivity]|].
  exact (List_status_mapping [("c9", odd_container "c9")]
           (mkService two_runtimes {["c9" := odd_container "c9"]})
           nil nil
           (mkListResponse [mkApiContainer "c9" 4321 Status_CREATED])
           (mkSt (mkService two_runtimes {["c9" := odd_container "c9"]}) nil
                 [EvLock; EvState "c9"; EvUnlock])
           Hrange eq_refl).
Defined.

(** *** More concrete runs *)

(** The state after [Create("c1")] on the empty registry. *)
Definition after_create_c1 : @St (list string) :=
  snd (Create (request "c1" "linux") empty_service).

(** The witness of X11: a second [Create("c1")], through the other
    runtime. *)
Lemma Create_twice_witness :
  (Create (request "c1" "linux") empty_service
   = (inl (mkCreateResponse "c1" 1234), after_create_c1) /\
   r_ID (request "c1" "broken") = r_ID (request "c1" "linux")) /\
  let '(res2, st2) := Create (request "c1" "broken") after_create_c1 in
  (res2 = inr ErrContainerExists \/ res2 = inr ErrUnknownRuntime) /\
  service st2 = service after_create_c1 /\
  backend st2 = backend after_create_c1 /\
  (forall i, EvRuntimeCreate i ∈ events st2 ->
             EvRuntimeCreate i ∈ events after_create_c1).
Proof.
  split; [split; reflexivity|].
  exact (Create_twice (request "c1" "linux") (request "c1" "broken")
           empty_service after_create_c1 (mkCreateResponse "c1" 1234)
           eq_refl eq_refl).
Defined.

(** The witness of X17. *)
Lemma New_is_empty_witness :
  range_of (containers (New two_runtimes)) nil /\
  List nil (mkSt (New two_runtimes) nil nil)
  = (inl (mkListResponse nil),
     mkSt (New two_runtimes) nil (nil ++ [EvLock; EvUnlock])%list) /\
  Start "c1" (mkSt (New two_runtimes) nil nil)
  = (Some ErrContainerNotExist,
     mkSt (New two_runtimes) nil (nil ++ [EvLock; EvLookup "c1"; EvUnlock])%list) /\
  Delete "c1" (mkSt (New two_runtimes) nil nil)
  = (Some ErrContainerNotExist,
     mkSt (New two_runtimes) nil (nil ++ [EvLock; EvLookup "c1"; EvUnlock])%list).
Proof.
  assert (range_of (containers (New two_runtimes)) nil) as Hrange.
  { unfold range_of, New. cbn. rewrite map_to_list_empty. reflexivity. }
  split; [exact Hrange|].
  exact (New_is_empty two_runtimes nil nil nil "c1" Hrange).
Defined.

(** A runtime that already has two containers at start-up, and one that
    cannot list its containers. *)
Definition stocked : @Runtime (list string) :=
  mkRuntime (fun id _ w => (inl (linux_container id), w))
            (fun c w => (None, info_ID (Info c) :: w))
            (fun w => (inl [linux_container "a"; linux_container "b"], w)).

Definition unlistable : @Runtime (list string) :=
  mkRuntime (fun id _ w => (inl (linux_container id), w))
            (fun c w => (None, info_ID (Info c) :: w))
            (fun w => (inr (BackendError "cannot list"), w)).

Example Register_stocked :
  let '(err, st') := Register [("linux", stocked)] empty_service in
  err = None /\
  containers (service st')
  = <["b" := linux_container "b"]> {["a" := linux_container "a"]} /\
  events st' = [EvRuntimeContainers "linux"; EvInsert "a"; EvInsert "b"].
Proof. vm_compute. repeat split. Qed.

Example Register_partial :
  let '(err, st') := Register [("linux", stocked); ("other", unlistable);
                               ("third", stocked)] empty_service in
  err = Some (BackendError "cannot list") /\
  containers (service st')
  = <["b" := linux_container "b"]> {["a" := linux_container "a"]} /\
  events st' = [EvRuntimeContainers "linux"; EvInsert "a"; EvInsert "b";
                EvRuntimeContainers "other"].
Proof. vm_compute. repeat split. Qed.

Example Delete_through_named_runtime :
  fst (Delete "c1" (mkSt (mkService {["broken" := broken]}
                                    {["c1" := linux_container "c1"]}) nil nil))
  = Some ErrUnknownRuntime.
Proof. reflexivity. Qed.

End execution.
